(** * ViT-Lens, [open_clip/modal_3d/datasets.py]

    A shallow embedding of the point-cloud dataset code: the normalisation
    routines, farthest-point sampling, the augmentation functions, the
    bucket lookup of the Objverse adapter, the cached retrieval of the
    ModelNet adapter and the tensor branch of the collation function.

    Conventions.
    - A numpy array of floats is a list (one axis), a list of lists (two
      axes) or a list of lists of lists (three axes) over [R]: floating
      point arithmetic is idealised as exact real arithmetic, and a cast
      between float widths is the identity.  What is proved over [R] is
      proved of the code in exact arithmetic; [pc_normalize] and
      [rotate_point_cloud] are given once more on binary64 numbers, in the
      module [F64], to tell what rounding changes.
    - A Python exception is [None] in an [option] result.
    - Every call to [np.random] is an explicit argument holding the values
      drawn, indexed the way the source consumes them.
    - Python integers are [Z]; positions in a list are [nat]. *)

From Stdlib Require Import String.
From Stdlib Require Import List ZArith Lia Bool Arith Permutation Ascii.
From Stdlib Require Import Reals Lra RNsatz.
From Stdlib Require Floats.
Import ListNotations.

(** ** Option as the exception monad *)

Definition bind {A B : Type} (m : option A) (k : A -> option B) : option B :=
  match m with
  | Some a => k a
  | None => None
  end.

Notation "x <- m ;; k" := (bind m (fun x => k))
  (at level 61, m at next level, right associativity).

Notation "' pat <- m ;; k" := (bind m (fun x => match x with pat => k end))
  (at level 61, pat pattern, m at next level, right associativity).

(** [mapM f l] runs [f] on every element, left to right, and fails as soon
    as one call fails. *)
Fixpoint mapM {A B : Type} (f : A -> option B) (l : list A) : option (list B) :=
  match l with
  | [] => Some []
  | a :: r => b <- f a ;; bs <- mapM f r ;; Some (b :: bs)
  end.

(** ** Arrays *)

Definition array1 := list R.
Definition array2 := list (list R).
Definition array3 := list (list (list R)).

(** [shape2 N C a]: [a] is an [N]x[C] array. *)
Definition shape2 (N C : nat) (a : array2) : Prop :=
  length a = N /\ Forall (fun row => length row = C) a.

(** [shape3 B N C a]: [a] is a [B]x[N]x[C] array. *)
Definition shape3 (B N C : nat) (a : array3) : Prop :=
  length a = B /\ Forall (shape2 N C) a.

(** Comparisons of floats, as booleans. *)
Definition Rltb (a b : R) : bool := if Rlt_dec a b then true else false.
Definition Rleb (a b : R) : bool := if Rle_dec a b then true else false.

Fixpoint zip_with {A B C : Type} (f : A -> B -> C) (l1 : list A) (l2 : list B)
  : list C :=
  match l1, l2 with
  | a :: r1, b :: r2 => f a b :: zip_with f r1 r2
  | _, _ => []
  end.

(** [mapi f l]: [f i l[i]] for every position [i] ([enumerate]). *)
Fixpoint mapi_from {A B : Type} (f : nat -> A -> B) (i : nat) (l : list A)
  : list B :=
  match l with
  | [] => []
  | a :: r => f i a :: mapi_from f (S i) r
  end.

Definition mapi {A B : Type} (f : nat -> A -> B) (l : list A) : list B :=
  mapi_from f 0 l.

(** Python's [l[i]] on a list: a negative index counts from the end, an
    index out of range raises. *)
Definition resolve_index (len : nat) (i : Z) : option nat :=
  if (i <? 0)%Z
  then if (i + Z.of_nat len <? 0)%Z then None
       else Some (Z.to_nat (i + Z.of_nat len))
  else if (i <? Z.of_nat len)%Z then Some (Z.to_nat i) else None.

Definition getitem {A : Type} (l : list A) (i : Z) : option A :=
  p <- resolve_index (length l) i ;; nth_error l p.

(** [l[p] = v] at a position in range. *)
Fixpoint setitem {A : Type} (l : list A) (p : nat) (v : A) : list A :=
  match l, p with
  | [], _ => []
  | _ :: r, O => v :: r
  | a :: r, S p' => a :: setitem r p' v
  end.

Module Np.

Open Scope R_scope.

(** [np.sum] of a one-axis array: accumulation from the left. *)
Definition sum (l : array1) : R := fold_left Rplus l 0.

(** [np.add.reduce(a, axis=0)] of a two-axis array: the rows are added
    coordinate by coordinate, starting from the first. *)
Definition sum_axis0 (a : array2) : array1 :=
  match a with
  | [] => []
  | r :: rs => fold_left (zip_with Rplus) rs r
  end.

(** [np.mean(a, axis=0)]. *)
Definition mean_axis0 (a : array2) : array1 :=
  map (fun s => s / INR (length a)) (sum_axis0 a).

(** [np.max]; it raises on an empty array. *)
Definition amax (l : array1) : option R :=
  match l with
  | [] => None
  | x :: r => Some (fold_left Rmax r x)
  end.

(** [a.min()]; it raises on an empty array. *)
Definition amin (l : array1) : option R :=
  match l with
  | [] => None
  | x :: r => Some (fold_left Rmin r x)
  end.

(** [np.argmax]: the first position holding the maximum; it raises on an
    empty array. *)
Fixpoint argmax_from (best_i : nat) (best : R) (i : nat) (l : array1) : nat :=
  match l with
  | [] => best_i
  | x :: r =>
      if Rltb best x then argmax_from i x (S i) r
      else argmax_from best_i best (S i) r
  end.

Definition argmax (l : array1) : option nat :=
  match l with
  | [] => None
  | x :: r => Some (argmax_from 0 x 1 r)
  end.

(** [np.clip(x, lo, hi)]. *)
Definition clip (x lo hi : R) : R := Rmin (Rmax x lo) hi.

(** Column [j] of a matrix. *)
Definition column (j : nat) (m : array2) : array1 :=
  map (fun row => nth j row 0) m.

(** [np.dot(a, m)] of two two-axis arrays; the width of the result is the
    width of [m]. *)
Definition dot (a m : array2) : array2 :=
  map (fun row =>
         map (fun j => sum (zip_with Rmult row (column j m)))
             (seq 0 (length (hd [] m))))
      a.

(** [a.reshape((-1, 3))]: the entries in row-major order, three to a row;
    it raises when their number is not a multiple of three. *)
Fixpoint chunk3 (l : array1) : option array2 :=
  match l with
  | [] => Some []
  | a :: b :: c :: rest => rows <- chunk3 rest ;; Some ([a; b; c] :: rows)
  | _ => None
  end.

Definition reshape3 (a : array2) : option array2 := chunk3 (concat a).

(** Two two-axis arrays have the same shape. *)
Fixpoint same_shape2 (x y : array2) : bool :=
  match x, y with
  | [], [] => true
  | rx :: x', ry :: y' => (length rx =? length ry)%nat && same_shape2 x' y'
  | _, _ => false
  end.

(** [dst[...] = src] on a slot that has the shape of [dst]: the value
    stored is [src]; it raises when the shapes differ. *)
Definition assign (dst src : array2) : option array2 :=
  if same_shape2 src dst then Some src else None.

Close Scope R_scope.

End Np.

(** ** Normalisation and sampling *)

Open Scope R_scope.

(** [pc_normalize(pc)].  When all points coincide [m] is 0 and the code
    divides 0 by 0; the properties of the function are stated for clouds
    with two points that differ. *)
Definition pc_normalize (pc : array2) : option array2 :=
  let centroid := Np.mean_axis0 pc in
  let pc := map (fun row => zip_with Rminus row centroid) pc in
  m <- Np.amax (map sqrt (map (fun row => Np.sum (map (fun x => x ^ 2) row)) pc)) ;;
  let pc := map (map (fun x => x / m)) pc in
  Some pc.

(** One pass of the [for i in range(npoint)] loop of
    [farthest_point_sample] per unit of [iters]; [centroids] holds the
    entries written so far. *)
Fixpoint fps_loop (xyz : array2) (iters : nat) (centroids : list nat)
    (distance : array1) (farthest : nat) : option (list nat) :=
  match iters with
  | O => Some centroids
  | S iters' =>
      let centroids := centroids ++ [farthest] in
      centroid <- nth_error xyz farthest ;;
      let dist :=
        map (fun p => Np.sum (map (fun x => x ^ 2) (zip_with Rminus p centroid)))
            xyz in
      let distance :=
        zip_with (fun d old => if Rltb d old then d else old) dist distance in
      farthest <- Np.argmax distance ;;
      fps_loop xyz iters' centroids distance farthest
  end.

(** [farthest_point_sample(point, npoint)]; [randint] is the value of
    [np.random.randint(0, N)], which raises when [N] is 0. *)
Definition farthest_point_sample (randint : nat) (point : array2) (npoint : nat)
  : option array2 :=
  let N := length point in
  let xyz := map (firstn 3) point in
  let centroids : list nat := [] in
  let distance := map (fun one => one * 1e10) (repeat 1 N) in
  if (N =? 0)%nat then None else
  let farthest := randint in
  centroids <- fps_loop xyz npoint centroids distance farthest ;;
  mapM (nth_error point) centroids.

(** ** Augmentations

    Each function takes the values its [np.random] calls return:
    [np.random.uniform()] and [np.random.random()] give a number in
    [[0,1)], [np.random.uniform(lo, hi)] gives [lo + (hi - lo) * u] for
    such a [u], and [np.random.randn] gives any number. *)

(** [rotate_point_cloud(batch_data)]; [uniform k] is the value of
    [np.random.uniform()] in pass [k] of the loop. *)
Definition rotate_point_cloud (uniform : nat -> R) (batch_data : array3)
  : option array3 :=
  mapM (fun rotated => rotated)
    (mapi (fun k shape_pc =>
             let rotation_angle := uniform k * 2 * PI in
             let cosval := cos rotation_angle in
             let sinval := sin rotation_angle in
             let rotation_matrix :=
               [[cosval; 0; sinval]; [0; 1; 0]; [- sinval; 0; cosval]] in
             flat <- Np.reshape3 shape_pc ;;
             Np.assign shape_pc (Np.dot flat rotation_matrix))
          batch_data).

(** [random_point_dropout(batch_pc, max_dropout_ratio)]; [random b] is the
    value of [np.random.random()] in pass [b] and [random_n b i] is entry
    [i] of [np.random.random((N))] in that pass. *)
Definition random_point_dropout (random : nat -> R) (random_n : nat -> nat -> R)
    (max_dropout_ratio : R) (batch_pc : array3) : array3 :=
  mapi (fun b cloud =>
          let dropout_ratio := random b * max_dropout_ratio in
          let drop_idx :=
            filter (fun i => Rleb (random_n b i) dropout_ratio)
                   (seq 0 (length cloud)) in
          if (0 <? length drop_idx)%nat
          then mapi (fun i p =>
                       if existsb (Nat.eqb i) drop_idx then nth 0 cloud [] else p)
                    cloud
          else cloud)
       batch_pc.

(** [random_scale_point_cloud(batch_data, scale_low, scale_high)];
    [uniform b] is the number behind entry [b] of
    [np.random.uniform(scale_low, scale_high, B)]. *)
Definition random_scale_point_cloud (uniform : nat -> R)
    (scale_low scale_high : R) (batch_data : array3) : array3 :=
  let scales := fun b => scale_low + (scale_high - scale_low) * uniform b in
  mapi (fun batch_index cloud => map (map (fun x => x * scales batch_index)) cloud)
       batch_data.

(** [shift_point_cloud(batch_data, shift_range)]; [uniform b j] is the
    number behind entry [(b, j)] of
    [np.random.uniform(-shift_range, shift_range, (B, 3))].  Adding a row of
    three shifts in place raises unless every point has three coordinates. *)
Definition shift_point_cloud (uniform : nat -> nat -> R) (shift_range : R)
    (batch_data : array3) : option array3 :=
  let shifts := fun b j =>
    - shift_range + (shift_range - - shift_range) * uniform b j in
  mapM (fun shifted => shifted)
    (mapi (fun batch_index cloud =>
             if forallb (fun row => (length row =? 3)%nat) cloud
             then Some (map (fun row =>
                               zip_with Rplus row
                                 (map (shifts batch_index) (seq 0 3)))
                            cloud)
             else None)
          batch_data).

(** [jitter_point_cloud(batch_data, sigma, clip)]; [randn b n c] is entry
    [(b, n, c)] of [np.random.randn(B, N, C)]. *)
Definition jitter_point_cloud (randn : nat -> nat -> nat -> R) (sigma clip : R)
    (batch_data : array3) : option array3 :=
  if Rltb 0 clip
  then
    Some (mapi (fun b cloud =>
                  mapi (fun n row =>
                          mapi (fun c x =>
                                  Np.clip (sigma * randn b n c) (-1 * clip) clip + x)
                               row)
                       cloud)
               batch_data)
  else None.

(** [rotate_perturbation_point_cloud(batch_data, angle_sigma, angle_clip)];
    [randn k i] is entry [i] of [np.random.randn(3)] in pass [k]. *)
Definition rotate_perturbation_point_cloud (randn : nat -> nat -> R)
    (angle_sigma angle_clip : R) (batch_data : array3) : option array3 :=
  mapM (fun rotated => rotated)
    (mapi (fun k shape_pc =>
             let angles := fun i =>
               Np.clip (angle_sigma * randn k i) (- angle_clip) angle_clip in
             let Rx :=
               [[1; 0; 0];
                [0; cos (angles 0%nat); - sin (angles 0%nat)];
                [0; sin (angles 0%nat); cos (angles 0%nat)]] in
             let Ry :=
               [[cos (angles 1%nat); 0; sin (angles 1%nat)];
                [0; 1; 0];
                [- sin (angles 1%nat); 0; cos (angles 1%nat)]] in
             let Rz :=
               [[cos (angles 2%nat); - sin (angles 2%nat); 0];
                [sin (angles 2%nat); cos (angles 2%nat); 0];
                [0; 0; 1]] in
             let R := Np.dot Rz (Np.dot Ry Rx) in
             flat <- Np.reshape3 shape_pc ;;
             Np.assign shape_pc (Np.dot flat R))
          batch_data).

(** The values drawn by one run of an augmentation chain. *)
Record draws := {
  dropout_random : nat -> R;
  dropout_random_n : nat -> nat -> R;
  scale_uniform : nat -> R;
  shift_uniform : nat -> nat -> R;
  jitter_randn : nat -> nat -> nat -> R;
  perturbation_randn : nat -> nat -> R;
  rotate_uniform : nat -> R
}.

(** The augmentation functions by name, and a call of one with its default
    arguments. *)
Inductive augmentation :=
| RandomPointDropout
| RandomScalePointCloud
| ShiftPointCloud
| JitterPointCloud
| RotatePerturbationPointCloud
| RotatePointCloud.

Definition augmentation_eqb (a b : augmentation) : bool :=
  match a, b with
  | RandomPointDropout, RandomPointDropout
  | RandomScalePointCloud, RandomScalePointCloud
  | ShiftPointCloud, ShiftPointCloud
  | JitterPointCloud, JitterPointCloud
  | RotatePerturbationPointCloud, RotatePerturbationPointCloud
  | RotatePointCloud, RotatePointCloud => true
  | _, _ => false
  end.

Definition call (d : draws) (f : augmentation) (pc : array3) : option array3 :=
  match f with
  | RandomPointDropout =>
      Some (random_point_dropout (dropout_random d) (dropout_random_n d) 0.875 pc)
  | RandomScalePointCloud =>
      Some (random_scale_point_cloud (scale_uniform d) 0.8 1.25 pc)
  | ShiftPointCloud => shift_point_cloud (shift_uniform d) 0.1 pc
  | JitterPointCloud => jitter_point_cloud (jitter_randn d) 0.01 0.05 pc
  | RotatePerturbationPointCloud =>
      rotate_perturbation_point_cloud (perturbation_randn d) 0.06 0.18 pc
  | RotatePointCloud => rotate_point_cloud (rotate_uniform d) pc
  end.

(** [pc = f1(pc); pc = f2(pc); ...]: the calls of a chain, in order. *)
Fixpoint run_chain (d : draws) (chain : list augmentation) (pc : array3)
  : option array3 :=
  match chain with
  | [] => Some pc
  | f :: rest => pc <- call d f pc ;; run_chain d rest pc
  end.

(** The augmentation chain as the specification words it: dropout, scale,
    shift, jitter, rotation. *)
Definition specified_augment_chain : list augmentation :=
  [RandomPointDropout; RandomScalePointCloud; ShiftPointCloud;
   JitterPointCloud; RotatePointCloud].

Close Scope R_scope.

(** ** Python strings *)

Module Str.

(** [s.split(sep)] for a separator of one character: the pieces between
    the occurrences of [sep], at least one. *)
Fixpoint split (sep : ascii) (s : string) : list string :=
  match s with
  | EmptyString => [EmptyString]
  | String c r =>
      if Ascii.eqb c sep then EmptyString :: split sep r
      else match split sep r with
           | piece :: pieces => String c piece :: pieces
           | [] => [String c EmptyString]
           end
  end.

(** [sep.join(pieces)] for a separator of one character. *)
Fixpoint join (sep : ascii) (pieces : list string) : string :=
  match pieces with
  | [] => EmptyString
  | [piece] => piece
  | piece :: rest => String.append piece (String sep (join sep rest))
  end.

(** [s[n:]]. *)
Fixpoint drop (n : nat) (s : string) : string :=
  match n, s with
  | O, _ => s
  | S n', String _ r => drop n' r
  | S _, EmptyString => EmptyString
  end.

(** Whether a character occurs in a string. *)
Fixpoint mem (c : ascii) (s : string) : bool :=
  match s with
  | EmptyString => false
  | String c' r => Ascii.eqb c' c || mem c r
  end.

End Str.

(** ** ModelNet *)

Module ModelNet.

(** The fields of a [ModelNet] object that [_get_item] and [__getitem__]
    read or write.  [datafiles] stands for the raw files behind
    [self.datapath]: for each index, the class number of the shape and the
    array [np.loadtxt] reads. *)
Record t := {
  npoints : nat;
  use_normals : bool;
  process_data : bool;
  uniform : bool;
  use_height : bool;
  subset : string;
  shape_names : list string;
  datafiles : list (Z * array2);
  list_of_points : list array2;
  list_of_labels : list (list Z);
  gravity_dim : option nat
}.

Definition set_list_of_points (self : t) (v : list array2) : t :=
  {| npoints := npoints self; use_normals := use_normals self;
     process_data := process_data self; uniform := uniform self;
     use_height := use_height self; subset := subset self;
     shape_names := shape_names self; datafiles := datafiles self;
     list_of_points := v; list_of_labels := list_of_labels self;
     gravity_dim := gravity_dim self |}.

Definition set_gravity_dim (self : t) (v : nat) : t :=
  {| npoints := npoints self; use_normals := use_normals self;
     process_data := process_data self; uniform := uniform self;
     use_height := use_height self; subset := subset self;
     shape_names := shape_names self; datafiles := datafiles self;
     list_of_points := list_of_points self; list_of_labels := list_of_labels self;
     gravity_dim := Some v |}.

(** What the local variable [point_set] is bound to: the array object
    stored at a position of [self.list_of_points], or an array of its own. *)
Inductive binding :=
| Cached (position : nat)
| Fresh (a : array2).

Definition deref (self : t) (b : binding) : option array2 :=
  match b with
  | Cached p => nth_error (list_of_points self) p
  | Fresh a => Some a
  end.

(** A write through the binding: it lands in the cache when the binding is
    the cached object. *)
Definition write (self : t) (b : binding) (v : array2) : t * binding :=
  match b with
  | Cached p => (set_list_of_points self (setitem (list_of_points self) p v), b)
  | Fresh _ => (self, Fresh v)
  end.

(** The values drawn by one retrieval: the two possible calls of
    [np.random.randint] inside [farthest_point_sample], and the order
    [np.random.shuffle] leaves [pt_idxs] in. *)
Record draws := {
  randint_load : nat;
  randint_resample : nat;
  shuffled : list nat
}.

(** [self._get_item(index)]: the pair returned and the object afterwards. *)
Definition _get_item (self : t) (d : draws) (index : Z)
  : option ((array2 * Z) * t) :=
  '(point_set, label) <-
    (if process_data self
     then
       p <- resolve_index (length (list_of_points self)) index ;;
       label <- getitem (list_of_labels self) index ;;
       Some (Cached p, label)
     else
       fn <- getitem (datafiles self) index ;;
       let cls := fst fn in
       let label := [cls] in
       let point_set := snd fn in
       point_set <-
         (if uniform self
          then farthest_point_sample (randint_load d) point_set (npoints self)
          else Some (firstn (npoints self) point_set)) ;;
       Some (Fresh point_set, label)) ;;
  v <- deref self point_set ;;
  point_set <-
    (if (npoints self <? length v)%nat
     then
       sampled <- farthest_point_sample (randint_resample d) v (npoints self) ;;
       Some (Fresh sampled)
     else Some point_set) ;;
  v <- deref self point_set ;;
  normalized <- pc_normalize (map (firstn 3) v) ;;
  let '(self, point_set) :=
    write self point_set (zip_with (fun n row => n ++ skipn 3 row) normalized v) in
  v <- deref self point_set ;;
  let v := if negb (use_normals self) then map (firstn 3) v else v in
  '(self, v) <-
    (if use_height self
     then
       let self := set_gravity_dim self 1 in
       let column := map (fun row => firstn 1 (skipn 1 row)) v in
       lowest <- Np.amin (concat column) ;;
       let height_array := map (map (fun x => (x - lowest)%R)) column in
       Some (self, zip_with (@app R) v height_array)
     else Some (self, v)) ;;
  label0 <- nth_error label 0 ;;
  Some ((v, label0), self).

(** The sample [__getitem__] returns. *)
Record Sample := {
  pc : array2;
  label : Z;
  class_name : string
}.

(** [self.__getitem__(index)]: the sample and the object afterwards. *)
Definition __getitem__ (self : t) (d : draws) (index : Z) : option (Sample * t) :=
  '((points, label), self) <- _get_item self d index ;;
  let pt_idxs := seq 0 (length points) in
  let pt_idxs := if String.eqb (subset self) "train" then shuffled d else pt_idxs in
  current_points <- mapM (nth_error points) pt_idxs ;;
  label_name <- getitem (shape_names self) label ;;
  Some ({| pc := current_points; label := label; class_name := label_name |}, self).

(** One element of [shape_names] in [__init__]:
    ["_".join(x.split("_")[0:-1])]. *)
Definition shape_name (x : string) : string :=
  Str.join "_"%char (removelast (Str.split "_"%char x)).

End ModelNet.

(** ** Objverse *)

Module Objverse.

(** [self.pc_norm(pc)]. *)
Definition pc_norm (pc : array2) : option array2 :=
  let centroid := Np.mean_axis0 pc in
  let pc := map (fun row => zip_with Rminus row centroid) pc in
  m <- Np.amax (map sqrt (map (fun row => Np.sum (map (fun x => (x ^ 2)%R) row)) pc)) ;;
  let pc := map (map (fun x => (x / m)%R)) pc in
  Some pc.

Open Scope Z_scope.

(** [np.cumsum] on a list of integers. *)
Fixpoint cumsum_from (acc : Z) (l : list Z) : list Z :=
  match l with
  | [] => []
  | x :: r => (acc + x) :: cumsum_from (acc + x) r
  end.

Definition cumsum (l : list Z) : list Z := cumsum_from 0 l.

(** [sum(self.data_manual.values())]. *)
Definition total (entries : list Z) : Z := fold_right Z.add 0 entries.

(** The [for scale in bucket_scale] loop of [find_bucket], with the
    running [bid]; running off the end of the loop is Python's implicit
    [return None]. *)
Fixpoint find_bucket_loop (id : Z) (bucket_scale : list Z) (bid : nat)
  : option nat :=
  match bucket_scale with
  | [] => None
  | scale :: rest =>
      if id >=? scale then find_bucket_loop id rest (S bid) else Some bid
  end.

Definition find_bucket (id : Z) (bucket_scale : list Z) : option nat :=
  find_bucket_loop id bucket_scale 0.

(** [initial_idx] of [__getitem__]. *)
Definition initial_idx (bucket_idx : nat) (cumulative_bucket_scale : list Z) : Z :=
  match bucket_idx with
  | O => 0
  | S b => nth b cumulative_bucket_scale 0
  end.

(** The first lines of [__getitem__]: the bucket and the key looked up in
    it.  With no bucket found, [bucket_idx - 1] raises. *)
Definition locate (index : Z) (cumulative_bucket_scale : list Z) : option (nat * Z) :=
  bucket_idx <- find_bucket index cumulative_bucket_scale ;;
  Some (bucket_idx, index - initial_idx bucket_idx cumulative_bucket_scale).

Close Scope Z_scope.

(** The calls under [if self.augment:] in [__getitem__], in order. *)
Definition augment_chain : list augmentation :=
  [RandomPointDropout; RandomScalePointCloud; ShiftPointCloud;
   RotatePerturbationPointCloud; RotatePointCloud].

(** The point cloud of [__getitem__] from the array read from the bucket
    to the value handed to [squeeze]; [self.augment] is always [True]. *)
Definition getitem_pc (d : draws) (augment : bool) (pc : array2) : option array3 :=
  pc <- pc_norm pc ;;
  if augment then run_chain d augment_chain [pc] else Some [pc].

End Objverse.

(** ** ShapeNet *)

Module ShapeNet.

(** [self.pc_norm(pc)]. *)
Definition pc_norm (pc : array2) : option array2 :=
  let centroid := Np.mean_axis0 pc in
  let pc := map (fun row => zip_with Rminus row centroid) pc in
  m <- Np.amax (map sqrt (map (fun row => Np.sum (map (fun x => (x ^ 2)%R) row)) pc)) ;;
  let pc := map (map (fun x => (x / m)%R)) pc in
  Some pc.

(** The calls under [if self.augment:] in [__getitem__], in order. *)
Definition augment_chain : list augmentation :=
  [RandomPointDropout; RandomScalePointCloud; ShiftPointCloud;
   RotatePerturbationPointCloud; RotatePointCloud].

(** The point cloud of [__getitem__] from the sampled array to the value
    handed to [squeeze]; [self.augment] is always [True]. *)
Definition getitem_pc (d : draws) (augment : bool) (data : array2) : option array3 :=
  data <- pc_norm data ;;
  if augment then run_chain d augment_chain [data] else Some [data].

(** [self.random_sample(pc, num)]: the rows picked and the value of
    [self.permutation] afterwards; [shuffled] is the order
    [np.random.shuffle] leaves [self.permutation] in.  An index past the end
    of [pc] raises. *)
Definition random_sample (shuffled : list nat) (pc : array2) (num : nat)
  : option (array2 * list nat) :=
  let permutation := shuffled in
  pc <- mapM (nth_error pc) (firstn num permutation) ;;
  Some (pc, permutation).

(** The sampling step of [__getitem__]: farthest-point sampling when the
    file holds more points than asked for, [random_sample] otherwise.  It
    returns the sampled [data] and [self.permutation] afterwards. *)
Definition sample (uniform : bool) (sample_points_num : nat)
    (permutation : list nat) (randint : nat) (shuffled : list nat)
    (data : array2) : option (array2 * list nat) :=
  if uniform && (sample_points_num <? length data)%nat
  then
    data <- farthest_point_sample randint data sample_points_num ;;
    Some (data, permutation)
  else random_sample shuffled data sample_points_num.

(** An entry of [self.file_list]. *)
Record entry := {
  taxonomy_id : string;
  model_id : string;
  file_path : string
}.

(** The body of the loop over [lines] in [__init__], on a line that
    [strip] has been applied to. *)
Definition parse_line (line : string) : entry :=
  let taxonomy_id := hd EmptyString (Str.split "-"%char line) in
  let model_id :=
    hd EmptyString
       (Str.split "."%char (Str.drop (String.length taxonomy_id + 1) line)) in
  {| taxonomy_id := taxonomy_id; model_id := model_id; file_path := line |}.

End ShapeNet.

(** ** Collation *)

Module Collate.

Section Tensors.

Variable A : Type.

(** A tensor: its shape and its entries in row-major order. *)
Record tensor := {
  shape : list nat;
  data : list A
}.

Definition numel (s : list nat) : nat := fold_right Nat.mul 1 s.

Definition well_formed (x : tensor) : Prop := length (data x) = numel (shape x).

Definition shape_eqb (s1 s2 : list nat) : bool :=
  if list_eq_dec Nat.eq_dec s1 s2 then true else false.

(** [x[i]] for a position [i]: the slice along the first axis; it raises on
    a tensor without axes and on a position past the end. *)
Definition tensor_getitem (x : tensor) (i : nat) : option tensor :=
  match shape x with
  | [] => None
  | d :: s =>
      if (i <? d)%nat
      then Some {| shape := s;
                   data := firstn (numel s) (skipn (i * numel s) (data x)) |}
      else None
  end.

(** [torch.stack(batch, 0)]: it raises on an empty batch and on tensors of
    different shapes. *)
Definition stack (batch : list tensor) : option tensor :=
  match batch with
  | [] => None
  | x :: rest =>
      if forallb (fun y => shape_eqb (shape y) (shape x)) rest
      then Some {| shape := length batch :: shape x;
                   data := concat (map data batch) |}
      else None
  end.

(** Whether [batch] is a Python list or another sequence. *)
Inductive container := PyList | PyTuple.

(** [[example for example in batch if example[4] is not None]] on tensors:
    [example[4]] is a tensor when it exists, never [None]. *)
Fixpoint keep_examples (batch : list tensor) : option (list tensor) :=
  match batch with
  | [] => Some []
  | example :: rest =>
      item <- tensor_getitem example 4 ;;
      kept <- keep_examples rest ;;
      Some (example :: kept)
  end.

(** [customized_collate_fn(batch)] on a batch whose elements are tensors:
    the filter on lists, then the [isinstance(elem, torch.Tensor)] branch.
    [worker] tells whether [get_worker_info()] is not [None]; the [out]
    tensor it allocates only changes where the result is stored. *)
Definition customized_collate_fn (kind : container) (worker : bool)
    (batch : list tensor) : option tensor :=
  elem <- nth_error batch 0 ;;
  batch <- match kind with
           | PyList => keep_examples batch
           | PyTuple => Some batch
           end ;;
  stack batch.

End Tensors.

Arguments shape {A} _.
Arguments data {A} _.
Arguments well_formed {A} _.
Arguments tensor_getitem {A} _ _.
Arguments stack {A} _.
Arguments keep_examples {A} _.
Arguments customized_collate_fn {A} _ _ _.

End Collate.

(** ** Entries of arrays *)

(** [a[n][c]] and [a[b][n][c]], raising out of range. *)
Definition entry2 (a : array2) (n c : nat) : option R :=
  row <- nth_error a n ;; nth_error row c.

Definition entry3 (a : array3) (b n c : nat) : option R :=
  cloud <- nth_error a b ;; entry2 cloud n c.

(** The squared Euclidean norm of a point. *)
Definition sqnorm (p : array1) : R := Np.sum (map (fun x => (x ^ 2)%R) p).

(** ** Configuration files *)

Module Config.

(** A key of a dict: a [str], or a key of another type (an int, a float,
    a bool, [None]), named by [id]; keys that Python takes for equal, as 1,
    1.0 and [True], have one [id]. *)
Inductive key :=
| KStr (s : string)
| KOther (id : string).

(** [a == b] on keys: a string equals no key of another type. *)
Definition key_eqb (a b : key) : bool :=
  match a, b with
  | KStr s, KStr t => String.eqb s t
  | KOther s, KOther t => String.eqb s t
  | _, _ => false
  end.

(** What [yaml.load] returns and what an [EasyDict] holds, as far as it is
    built of mappings and scalars: a dict, with its items in insertion
    order, or a scalar (a string, a number, a boolean, null), of which only
    the text matters here.  Sequences are not modelled: a list takes item
    assignment where a scalar raises, and [EasyDict] converts its
    elements. *)
#[local] Unset Elimination Schemes.

Inductive value :=
| Scalar (text : string)
| Dict (items : list (key * value)).

#[local] Set Elimination Schemes.

(** [key in d]. *)
Fixpoint mem (k : key) (items : list (key * value)) : bool :=
  match items with
  | [] => false
  | (k', _) :: rest => key_eqb k' k || mem k rest
  end.

(** [d[key]], raising on a missing key. *)
Fixpoint get (k : key) (items : list (key * value)) : option value :=
  match items with
  | [] => None
  | (k', v) :: rest => if key_eqb k' k then Some v else get k rest
  end.

(** [dict.__setitem__(d, key, v)]: a key already there keeps its place. *)
Fixpoint set (k : key) (v : value) (items : list (key * value))
  : list (key * value) :=
  match items with
  | [] => [(k, v)]
  | (k', v') :: rest =>
      if key_eqb k' k then (k, v) :: rest else (k', v') :: set k v rest
  end.

(** [config[key] = v] on an [EasyDict], whose [__setitem__] is its
    [__setattr__]: the value is first set as the attribute [key] of the
    object, then stored as an item.  [object.__setattr__] raises on a key
    that is not a string; [refuses name v] tells the names it refuses with
    the value [v] (as [__class__], which takes only a class). *)
Definition setitem (refuses : string -> value -> bool) (k : key) (v : value)
    (items : list (key * value)) : option (list (key * value)) :=
  match k with
  | KOther _ => None
  | KStr name => if refuses name v then None else Some (set k v items)
  end.

(** [merge_new_config(config, new_config)], [new_config] given by its
    items: the value of [config] afterwards.  [config] is an [EasyDict] or
    what an [EasyDict] holds under a key, as at every call in the file.
    [files text] is what opening and loading the file named by the scalar
    [text] gives, [None] when that raises.  The recursion follows the
    nesting of [new_config] and of the files it names, one unit of [fuel]
    per level; [None] is an exception or the end of the fuel.  A [config]
    that is a scalar raises at the first item: in the test [key not in
    config], in [config[key]] or in the store. *)
Fixpoint merge_new_config (fuel : nat) (refuses : string -> value -> bool)
    (files : string -> option value)
    (config : value) (new_config : list (key * value)) : option value :=
  match fuel with
  | O => None
  | S fuel' =>
      let merge_into (k : key) (val : list (key * value))
                     (config : list (key * value)) :=
        (* merge_new_config(config[key], val) *)
        inner <- get k config ;;
        inner <- merge_new_config fuel' refuses files inner val ;;
        Some (set k inner config) in
      (fix loop (config : value) (items : list (key * value)) {struct items}
         : option value :=
         match items with
         | [] => Some config
         | (k, val) :: rest =>
             match config with
             | Scalar _ => None
             | Dict config =>
                 config <-
                   match val with
                   | Dict sub =>
                       config <-
                         (if mem k config then Some config
                          else setitem refuses k (Dict []) config) ;;
                       merge_into k sub config
                   | Scalar text =>
                       if key_eqb k (KStr "_base_")
                       then
                         loaded <- files text ;;
                         config <- setitem refuses k (Dict []) config ;;
                         match loaded with
                         | Dict sub =>
                             config <- merge_into k sub config ;;
                             merge_into k sub config
                         | Scalar _ => None
                         end
                       else setitem refuses k (Scalar text) config
                   end ;;
                 loop (Dict config) rest
             end
         end) config new_config
  end.

(** [cfg_from_yaml_file(cfg_file)]. *)
Definition cfg_from_yaml_file (fuel : nat) (refuses : string -> value -> bool)
    (files : string -> option value) (cfg_file : string) : option value :=
  let config := Dict [] in
  new_config <- files cfg_file ;;
  match new_config with
  | Dict items => merge_new_config fuel refuses files config items
  | Scalar _ => None
  end.

(** The nesting depth of a value. *)
Fixpoint depth (v : value) : nat :=
  match v with
  | Scalar _ => 0
  | Dict items =>
      S ((fix deepest (items : list (key * value)) : nat :=
            match items with
            | [] => 0
            | (_, v) :: rest => Nat.max (depth v) (deepest rest)
            end) items)
  end.

(** A value as a YAML file of mappings and scalars without includes gives
    it, and as an [EasyDict] can hold it: no dict has a key twice, every key
    is a string that is not refused as an attribute name with what is stored
    under it (the scalar, or the empty [EasyDict] that a nested dict is
    merged into), and no dict has a scalar item [_base_]. *)
Fixpoint plain (refuses : string -> value -> bool) (v : value) : Prop :=
  match v with
  | Scalar _ => True
  | Dict items =>
      NoDup (map fst items)
      /\ (fix all_plain (items : list (key * value)) : Prop :=
            match items with
            | [] => True
            | (k, v) :: rest =>
                (match k, v with
                 | KStr name, Scalar _ =>
                     name <> "_base_"%string /\ refuses name v = false
                 | KStr name, Dict _ => refuses name (Dict []) = false
                 | KOther _, _ => False
                 end)
                /\ plain refuses v /\ all_plain rest
            end) items
  end.

End Config.

(** ** The same code in binary64

    [pc_normalize] and [rotate_point_cloud] once more, on numpy's float64
    numbers with their rounding: Rocq's primitive floats are IEEE 754
    binary64 with rounding to nearest even, as numpy's are.  Sums run from
    the left, the order numpy follows on rows of three entries and on
    columns. *)

Module F64.

Import PrimFloat FloatOps SpecFloat.
Open Scope float_scope.

Definition array1 := list float.
Definition array2 := list (list float).
Definition array3 := list (list (list float)).

(** [np.sum] of a one-axis array. *)
Definition sum (l : array1) : float := fold_left add l 0.

(** [np.add.reduce(a, axis=0)]. *)
Definition sum_axis0 (a : array2) : array1 :=
  match a with
  | [] => []
  | r :: rs => fold_left (zip_with add) rs r
  end.

(** The number of rows as a float. *)
Definition of_nat (n : nat) : float := of_uint63 (Uint63.of_Z (Z.of_nat n)).

(** [np.mean(a, axis=0)]. *)
Definition mean_axis0 (a : array2) : array1 :=
  map (fun s => s / of_nat (length a)) (sum_axis0 a).

(** [np.maximum]: the larger number, a NaN when there is one. *)
Definition maximum (a b : float) : float :=
  if is_nan a then a else if is_nan b then b else if a <? b then b else a.

(** [np.max]; it raises on an empty array. *)
Definition amax (l : array1) : option float :=
  match l with
  | [] => None
  | x :: r => Some (fold_left maximum r x)
  end.

(** [pc_normalize(pc)]; [pc**2] is the product of a number with itself. *)
Definition pc_normalize (pc : array2) : option array2 :=
  let centroid := mean_axis0 pc in
  let pc := map (fun row => zip_with sub row centroid) pc in
  m <- amax (map sqrt (map (fun row => sum (map (fun x => x * x) row)) pc)) ;;
  let pc := map (map (fun x => x / m)) pc in
  Some pc.


(** The store of a float64 into an array of dtype [np.float32]: the
    number is rounded to binary32 (24 bits of precision, exponents up to
    128); the result is written as the binary64 of the same value. *)
Definition to_float32 (x : float) : float :=
  match Prim2SF x with
  | S754_finite s m e => SF2Prim (binary_round 24 128 s m e)
  | _ => x
  end.

(** [np.pi]. *)
Definition pi : float := 0x1.921fb54442d18p+1.

Definition column (j : nat) (m : array2) : array1 :=
  map (fun row => nth j row 0) m.

(** [np.dot(a, m)] of two two-axis arrays. *)
Definition dot (a m : array2) : array2 :=
  map (fun row =>
         map (fun j => sum (zip_with mul row (column j m)))
             (seq 0 (length (hd [] m))))
      a.

(** [a.reshape((-1, 3))]. *)
Fixpoint chunk3 (l : array1) : option array2 :=
  match l with
  | [] => Some []
  | a :: b :: c :: rest => rows <- chunk3 rest ;; Some ([a; b; c] :: rows)
  | _ => None
  end.

Definition reshape3 (a : array2) : option array2 := chunk3 (concat a).

Fixpoint same_shape2 (x y : array2) : bool :=
  match x, y with
  | [], [] => true
  | rx :: x', ry :: y' => (length rx =? length ry)%nat && same_shape2 x' y'
  | _, _ => false
  end.

(** [rotated_data[k, ...] = src] on the array [rotated_data] of dtype
    [np.float32]: every number is rounded on the way in; it raises when the
    shapes differ. *)
Definition assign_float32 (dst src : array2) : option array2 :=
  if same_shape2 src dst then Some (map (map to_float32) src) else None.

(** [rotate_point_cloud(batch_data)] on a float64 batch.  [np_cos] and
    [np_sin] are [np.cos] and [np.sin]; [uniform k] is the value of
    [np.random.uniform()] in pass [k]. *)
Definition rotate_point_cloud (np_cos np_sin : float -> float)
    (uniform : nat -> float) (batch_data : array3) : option array3 :=
  mapM (fun rotated => rotated)
    (mapi (fun k shape_pc =>
             let rotation_angle := uniform k * 2 * pi in
             let cosval := np_cos rotation_angle in
             let sinval := np_sin rotation_angle in
             let rotation_matrix :=
               [[cosval; 0; sinval]; [0; 1; 0]; [- sinval; 0; cosval]] in
             flat <- reshape3 shape_pc ;;
             assign_float32 shape_pc (dot flat rotation_matrix))
          batch_data).


(** The three points of [Samples.three_points]. *)
Definition three_points : array2 := [[1; 2; 3]; [4; 5; 6]; [7; 8; 10]].



Close Scope float_scope.

End F64.

(** ** Sample data *)

Module Samples.

Open Scope R_scope.

(** Two points on the x axis, with three coordinates each. *)
Definition two_points : array2 := [[0; 0; 0]; [2; 0; 0]].

(** Three points off the axes. *)
Definition three_points : array2 := [[1; 2; 3]; [4; 5; 6]; [7; 8; 10]].

(** A batch of two clouds. *)
Definition batch : array3 := [three_points; [[0; 1; 0]; [2; -1; 5]; [3; 3; 3]]].

(** Draws that are the same in every pass. *)
Definition constant_draws (u g : R) : draws :=
  {| dropout_random := fun _ => u;
     dropout_random_n := fun _ _ => u;
     scale_uniform := fun _ => u;
     shift_uniform := fun _ _ => u;
     jitter_randn := fun _ _ _ => g;
     perturbation_randn := fun _ _ => g;
     rotate_uniform := fun _ => u |}.

(** A cache of one cloud: two points with their normals. *)
Definition cached_cloud : array2 := [[0; 0; 0; 0; 0; 1]; [2; 0; 0; 0; 0; 1]].

(** A [ModelNet] test set of one shape, loaded from its cache the way
    [__init__] does ([process_data] and [uniform] are always [True]), with
    as many points asked for as the cache holds. *)
Definition modelnet : ModelNet.t :=
  {| ModelNet.npoints := 2;
     ModelNet.use_normals := false;
     ModelNet.process_data := true;
     ModelNet.uniform := true;
     ModelNet.use_height := false;
     ModelNet.subset := "test"%string;
     ModelNet.shape_names := ["airplane"%string];
     ModelNet.datafiles := [];
     ModelNet.list_of_points := [cached_cloud];
     ModelNet.list_of_labels := [[0%Z]];
     ModelNet.gravity_dim := None |}.

Definition modelnet_draws : ModelNet.draws :=
  {| ModelNet.randint_load := 0;
     ModelNet.randint_resample := 0;
     ModelNet.shuffled := [0%nat; 1%nat] |}.

(** A tensor of three entries along one axis. *)
Definition short_tensor : Collate.tensor Z :=
  {| Collate.shape := [3%nat]; Collate.data := [1%Z; 2%Z; 3%Z] |}.

(** A tensor of shape 5x2. *)
Definition tall_tensor : Collate.tensor Z :=
  {| Collate.shape := [5%nat; 2%nat];
     Collate.data := [0; 1; 2; 3; 4; 5; 6; 7; 8; 9]%Z |}.

(** The same test set with a single point asked for, so that every
    retrieval resamples the cached cloud. *)
Definition modelnet_one : ModelNet.t :=
  {| ModelNet.npoints := 1;
     ModelNet.use_normals := false;
     ModelNet.process_data := true;
     ModelNet.uniform := true;
     ModelNet.use_height := false;
     ModelNet.subset := "test"%string;
     ModelNet.shape_names := ["airplane"%string];
     ModelNet.datafiles := [];
     ModelNet.list_of_points := [cached_cloud];
     ModelNet.list_of_labels := [[0%Z]];
     ModelNet.gravity_dim := None |}.

(** The content of a configuration file, and a file system that holds it
    at one path. *)
Definition yaml_items : list (Config.key * Config.value) :=
  [(Config.KStr "NAME", Config.Scalar "ModelNet");
   (Config.KStr "NUM_CATEGORY", Config.Scalar "40");
   (Config.KStr "others",
    Config.Dict [(Config.KStr "USE_NORMALS", Config.Scalar "false")])].

Definition yaml_files (path : string) : option Config.value :=
  if String.eqb path "ModelNet40.yaml" then Some (Config.Dict yaml_items)
  else None.

(** Attribute names refused in the examples: [__class__] takes only a
    class, [__dict__] only a dict. *)
Definition setattr_refuses (name : string) (v : Config.value) : bool :=
  String.eqb name "__class__"
  || (String.eqb name "__dict__"
      && match v with Config.Scalar _ => true | Config.Dict _ => false end).

(** A mapping from class numbers to names, as a YAML file gives it: its
    keys are ints. *)
Definition yaml_classes : list (Config.key * Config.value) :=
  [(Config.KOther "0", Config.Scalar "airplane");
   (Config.KOther "1", Config.Scalar "bathtub")].

Definition classes_files (path : string) : option Config.value :=
  if String.eqb path "classes.yaml" then Some (Config.Dict yaml_classes)
  else None.

Close Scope R_scope.

End Samples.

(** * Properties *)

(** ** Lists and the exception monad *)

Section ListFacts.

Context {A B C : Type}.

Lemma mapi_from_length (f : nat -> A -> B) i l :
  length (mapi_from f i l) = length l.
Proof. revert i; induction l; intros; simpl; auto. Qed.

Lemma mapi_length (f : nat -> A -> B) l : length (mapi f l) = length l.
Proof. apply mapi_from_length. Qed.

Lemma nth_error_mapi_from (f : nat -> A -> B) i l k :
  nth_error (mapi_from f i l) k = option_map (f (i + k)) (nth_error l k).
Proof.
  revert i k; induction l as [|a r IH]; intros i k.
  - destruct k; reflexivity.
  - destruct k; simpl.
    + rewrite Nat.add_0_r; reflexivity.
    + rewrite IH. f_equal. f_equal. lia.
Qed.

Lemma nth_error_mapi (f : nat -> A -> B) l k :
  nth_error (mapi f l) k = option_map (f k) (nth_error l k).
Proof. apply nth_error_mapi_from. Qed.

Lemma Forall_mapi_from (P : A -> Prop) (Q : B -> Prop) (f : nat -> A -> B) i l :
  (forall k a, P a -> Q (f k a)) -> Forall P l -> Forall Q (mapi_from f i l).
Proof.
  intros Hf H; revert i; induction H; intros i; simpl; constructor; auto.
Qed.

Lemma Forall_mapi (P : A -> Prop) (Q : B -> Prop) (f : nat -> A -> B) l :
  (forall k a, P a -> Q (f k a)) -> Forall P l -> Forall Q (mapi f l).
Proof. apply Forall_mapi_from. Qed.

(** A pass over a list in which every step succeeds. *)
Lemma sequence_mapi_from (P : A -> Prop) (f : nat -> A -> option B)
    (g : nat -> A -> B) i l :
  (forall k a, P a -> f k a = Some (g k a)) ->
  Forall P l ->
  mapM (fun x => x) (mapi_from f i l) = Some (mapi_from g i l).
Proof.
  intros Hf H; revert i; induction H as [|a r Ha Hr IH]; intros i; simpl.
  - reflexivity.
  - rewrite (Hf i a Ha). simpl. rewrite IH. reflexivity.
Qed.

Lemma sequence_mapi (P : A -> Prop) (f : nat -> A -> option B)
    (g : nat -> A -> B) l :
  (forall k a, P a -> f k a = Some (g k a)) ->
  Forall P l ->
  mapM (fun x => x) (mapi f l) = Some (mapi g l).
Proof. apply sequence_mapi_from. Qed.

Lemma mapM_length (f : A -> option B) l out :
  mapM f l = Some out -> length out = length l.
Proof.
  revert out; induction l as [|a r IH]; intros out; simpl.
  - intros [= <-]; reflexivity.
  - destruct (f a); simpl; [|discriminate].
    destruct (mapM f r); simpl; [|discriminate].
    intros [= <-]. simpl. f_equal. apply IH. reflexivity.
Qed.

Lemma mapM_nth_error (f : A -> option B) l out k :
  mapM f l = Some out -> nth_error out k = bind (nth_error l k) f.
Proof.
  revert out k; induction l as [|a r IH]; intros out k; simpl.
  - intros [= <-]. destruct k; reflexivity.
  - destruct (f a) eqn:Ea; simpl; [|discriminate].
    destruct (mapM f r); simpl; [|discriminate].
    intros [= <-]. destruct k; simpl; [symmetry; exact Ea | apply IH; reflexivity].
Qed.

Lemma mapM_total (f : A -> option B) l :
  Forall (fun a => exists b, f a = Some b) l -> exists out, mapM f l = Some out.
Proof.
  induction 1 as [|a r [b Hb] _ [out Hout]]; simpl.
  - eexists; reflexivity.
  - rewrite Hb, Hout. simpl. eexists; reflexivity.
Qed.

Lemma nth_map_lt (f : A -> B) l j d d' :
  j < length l -> nth j (map f l) d = f (nth j l d').
Proof.
  intros Hj. apply nth_error_nth. rewrite nth_error_map.
  rewrite (nth_error_nth' l d' Hj). reflexivity.
Qed.

Lemma zip_with_length (f : A -> B -> C) l1 l2 :
  length (zip_with f l1 l2) = Nat.min (length l1) (length l2).
Proof.
  revert l2; induction l1 as [|a r IH]; intros [|b l2]; simpl; auto.
Qed.

Lemma setitem_length (l : list A) p v : length (setitem l p v) = length l.
Proof. revert p; induction l; intros [|p]; simpl; auto. Qed.

Lemma nth_error_setitem_eq (l : list A) p v :
  p < length l -> nth_error (setitem l p v) p = Some v.
Proof.
  revert p; induction l; intros [|p] H; simpl in *; try lia; auto.
  apply IHl; lia.
Qed.

End ListFacts.

(** ** Shapes *)

Lemma shape2_length N C a : shape2 N C a -> length a = N.
Proof. intros [H _]; exact H. Qed.

Lemma shape2_row N C a row : shape2 N C a -> In row a -> length row = C.
Proof. intros [_ H] Hin. rewrite Forall_forall in H. auto. Qed.

Lemma shape2_map_map N C (f : R -> R) a :
  shape2 N C a -> shape2 N C (map (map f) a).
Proof.
  intros [Hl Hr]; split.
  - rewrite length_map; exact Hl.
  - apply Forall_map. eapply Forall_impl; [|exact Hr].
    intros row H; simpl. rewrite length_map; exact H.
Qed.

Lemma shape3_mapi B N C (f : nat -> array2 -> array2) a :
  (forall k cloud, shape2 N C cloud -> shape2 N C (f k cloud)) ->
  shape3 B N C a -> shape3 B N C (mapi f a).
Proof.
  intros Hf [Hl Hc]; split.
  - rewrite mapi_length; exact Hl.
  - eapply Forall_mapi; eauto.
Qed.

(** ** Reshaping and rotating a cloud of points with three coordinates *)

Lemma reshape3_id N cloud : shape2 N 3 cloud -> Np.reshape3 cloud = Some cloud.
Proof.
  intros [_ H]. unfold Np.reshape3. induction H as [|row r Hrow _ IH]; simpl.
  - reflexivity.
  - destruct row as [|a [|b [|c [|? ?]]]]; try discriminate.
    simpl. simpl in IH. rewrite IH. reflexivity.
Qed.

Lemma dot_shape N m cloud :
  length cloud = N -> shape2 N (length (hd [] m)) (Np.dot cloud m).
Proof.
  intros Hl; split.
  - unfold Np.dot. rewrite length_map; exact Hl.
  - unfold Np.dot. apply Forall_map. apply Forall_forall. intros row _.
    rewrite length_map, length_seq. reflexivity.
Qed.

Lemma same_shape2_of_shape N C x y :
  shape2 N C x -> shape2 N C y -> Np.same_shape2 x y = true.
Proof.
  intros [Hx Fx]; revert N y Hx; induction Fx as [|rx x' Hrx _ IH];
    intros N y Hx [Hy Fy]; destruct Fy as [|ry y' Hry Fy]; simpl in *;
    try congruence.
  rewrite Hrx, Hry, Nat.eqb_refl. simpl.
  apply (IH (length x') y' eq_refl). split; [lia | assumption].
Qed.

(** Multiplying a cloud of [N] points by a matrix three columns wide
    succeeds and gives [N] points again. *)
Lemma rotate_cloud_ok N cloud m :
  shape2 N 3 cloud -> length (hd [] m) = 3 ->
  (flat <- Np.reshape3 cloud ;; Np.assign cloud (Np.dot flat m))
  = Some (Np.dot cloud m)
  /\ shape2 N 3 (Np.dot cloud m).
Proof.
  intros Hs Hm.
  assert (Hd : shape2 N 3 (Np.dot cloud m)).
  { rewrite <- Hm. apply dot_shape. eapply shape2_length; eauto. }
  split; [|exact Hd].
  rewrite (reshape3_id N cloud Hs). simpl. unfold Np.assign.
  rewrite (same_shape2_of_shape N 3 _ _ Hd Hs). reflexivity.
Qed.

Lemma dot_width a m : a <> [] -> length (hd [] (Np.dot a m)) = length (hd [] m).
Proof.
  destruct a as [|row a]; [congruence|]. intros _. simpl.
  rewrite length_map, length_seq. reflexivity.
Qed.
(** ** Objverse: properties of the bucket lookup *)

Section BucketLookup.

Import Objverse.
Open Scope Z_scope.

Lemma cumsum_from_length acc l : length (cumsum_from acc l) = length l.
Proof. revert acc; induction l as [|x r IH]; intros acc; simpl; auto. Qed.

Lemma cumsum_from_last acc l d :
  l <> [] -> last (cumsum_from acc l) d = acc + total l.
Proof.
  revert acc; induction l as [|x r IH]; intros acc Hne; [congruence|].
  destruct r as [|y r'].
  - simpl. lia.
  - change (cumsum_from acc (x :: y :: r'))
      with ((acc + x) :: cumsum_from (acc + x) (y :: r')).
    assert (Hc : cumsum_from (acc + x) (y :: r') <> []) by (simpl; congruence).
    destruct (cumsum_from (acc + x) (y :: r')) as [|c cs] eqn:E; [congruence|].
    change (last (acc + x :: c :: cs) d) with (last (c :: cs) d).
    rewrite <- E, IH by congruence.
    unfold total; simpl; lia.
Qed.

(** Consecutive entries of the cumulative sums differ by the bucket size. *)
Lemma cumsum_from_nth acc l b :
  (b < length l)%nat ->
  nth b (cumsum_from acc l) 0
  = match b with O => acc | S b' => nth b' (cumsum_from acc l) 0 end + nth b l 0.
Proof.
  revert acc b; induction l as [|x r IH]; intros acc b Hb; simpl in Hb; [lia|].
  destruct b as [|b]; simpl; [reflexivity|].
  rewrite IH by lia. destruct b; reflexivity.
Qed.

(** What the loop returns when some scale exceeds [id]. *)
Lemma find_bucket_loop_spec id scales bid0 :
  (exists s, In s scales /\ id < s) ->
  exists k, find_bucket_loop id scales bid0 = Some (bid0 + k)%nat
    /\ (k < length scales)%nat
    /\ id < nth k scales 0
    /\ (forall j, (j < k)%nat -> nth j scales 0 <= id).
Proof.
  revert bid0; induction scales as [|s r IH]; intros bid0 [s0 [Hin Hlt]].
  - destruct Hin.
  - simpl. destruct (id >=? s) eqn:E.
    + apply Z.geb_le in E.
      destruct Hin as [->|Hin]; [lia|].
      destruct (IH (S bid0) (ex_intro _ s0 (conj Hin Hlt))) as (k & Hk & Hlen & Hup & Hlow).
      exists (S k). repeat split.
      * rewrite Hk. f_equal. lia.
      * simpl; lia.
      * exact Hup.
      * intros [|j] Hj; simpl; [assumption | apply Hlow; lia].
    + exists O. rewrite Z.geb_leb in E. apply Z.leb_gt in E.
      repeat split; simpl; try lia. f_equal; lia.
Qed.

(** C6.  For an index inside the dataset ([0 <= index < total entries]),
    [find_bucket] on the cumulative bucket sizes returns a bucket id, never
    [None]; the index lies in that bucket's cumulative range (lower bound 0
    for bucket 0), and the key [index - initial_idx] computed by
    [__getitem__] is an offset inside the bucket. *)
Theorem find_bucket_in_range (entries : list Z) (index : Z) :
  0 <= index < total entries ->
  exists bid,
    find_bucket index (cumsum entries) = Some bid
    /\ (bid < length entries)%nat
    /\ initial_idx bid (cumsum entries) <= index < nth bid (cumsum entries) 0
    /\ locate index (cumsum entries)
       = Some (bid, index - initial_idx bid (cumsum entries))
    /\ 0 <= index - initial_idx bid (cumsum entries) < nth bid entries 0.
Proof.
  intros [Hlo Hhi].
  assert (Hne : entries <> []).
  { intros ->. unfold total in Hhi; simpl in Hhi. lia. }
  assert (Hex : exists s, In s (cumsum entries) /\ index < s).
  { exists (last (cumsum entries) 0). split.
    - assert (Hc : cumsum entries <> []).
      { intros Hc. apply (f_equal (@length Z)) in Hc.
        unfold cumsum in Hc. rewrite cumsum_from_length in Hc.
        destruct entries; [congruence | discriminate]. }
      destruct (exists_last Hc) as (l' & a & ->).
      rewrite last_last. apply in_or_app; right; left; reflexivity.
    - unfold cumsum. rewrite cumsum_from_last by assumption. lia. }
  destruct (find_bucket_loop_spec index (cumsum entries) 0 Hex)
    as (k & Hk & Hlen & Hup & Hlow).
  simpl in Hk. unfold cumsum in Hlen. rewrite cumsum_from_length in Hlen.
  assert (Hinit : initial_idx k (cumsum entries) <= index).
  { destruct k as [|k]; simpl; [assumption | apply Hlow; lia]. }
  exists k. repeat split; try assumption.
  - unfold locate, find_bucket. rewrite Hk. reflexivity.
  - lia.
  - unfold cumsum in *. rewrite (cumsum_from_nth 0 entries k Hlen) in Hup.
    unfold initial_idx. destruct k; lia.
Qed.

(** A dataset of three buckets holding 2, 0 and 3 entries; index 2 is the
    first entry of the last bucket. *)
Lemma find_bucket_in_range_witness :
  0 <= 2 < total [2; 0; 3]
  /\ exists bid,
    find_bucket 2 (cumsum [2; 0; 3]) = Some bid
    /\ (bid < length [2; 0; 3])%nat
    /\ initial_idx bid (cumsum [2; 0; 3]) <= 2 < nth bid (cumsum [2; 0; 3]) 0
    /\ locate 2 (cumsum [2; 0; 3])
       = Some (bid, 2 - initial_idx bid (cumsum [2; 0; 3]))
    /\ 0 <= 2 - initial_idx bid (cumsum [2; 0; 3]) < nth bid [2; 0; 3] 0.
Proof.
  assert (H : 0 <= 2 < total [2; 0; 3]) by (vm_compute; split; congruence).
  split; [exact H | exact (find_bucket_in_range [2; 0; 3] 2 H)].
Defined.

End BucketLookup.

(** ** The augmentation functions *)

Open Scope R_scope.

Lemma nth_mapi {A B : Type} (f : nat -> A -> B) l k d d' :
  (k < length l)%nat -> nth k (mapi f l) d = f k (nth k l d').
Proof.
  intros Hk.
  apply nth_error_nth. rewrite nth_error_mapi.
  rewrite (nth_error_nth' l d' Hk). reflexivity.
Qed.

Lemma dropout_cloud_shape N random_b ratio cloud :
  shape2 N 3 cloud ->
  shape2 N 3
    (let drop_idx :=
       filter (fun i => Rleb (random_b i) ratio) (seq 0 (length cloud)) in
     if (0 <? length drop_idx)%nat
     then mapi (fun i p =>
                  if existsb (Nat.eqb i) drop_idx then nth 0 cloud [] else p)
               cloud
     else cloud).
Proof.
  intros Hs. cbv zeta.
  destruct (0 <? _)%nat; [|exact Hs].
  destruct Hs as [Hl Hr]. split.
  - rewrite mapi_length; exact Hl.
  - destruct cloud as [|first rest]; [constructor|].
    eapply Forall_mapi; [|exact Hr].
    intros k p Hp. simpl in Hp. simpl nth.
    destruct (existsb _ _); [|exact Hp].
    inversion Hr; assumption.
Qed.

Lemma random_point_dropout_shape random random_n ratio B N batch :
  shape3 B N 3 batch ->
  shape3 B N 3 (random_point_dropout random random_n ratio batch).
Proof.
  intros Hs. unfold random_point_dropout. apply shape3_mapi; [|exact Hs].
  intros k cloud Hc. apply (dropout_cloud_shape N (random_n k) _ cloud Hc).
Qed.

Lemma random_scale_point_cloud_shape uniform lo hi B N batch :
  shape3 B N 3 batch ->
  shape3 B N 3 (random_scale_point_cloud uniform lo hi batch).
Proof.
  intros Hs. unfold random_scale_point_cloud. apply shape3_mapi; [|exact Hs].
  intros k cloud Hc. apply shape2_map_map; exact Hc.
Qed.

Lemma shift_point_cloud_shape uniform range B N batch :
  shape3 B N 3 batch ->
  exists out, shift_point_cloud uniform range batch = Some out
              /\ shape3 B N 3 out.
Proof.
  intros [Hl Hc]. unfold shift_point_cloud.
  set (shifts := fun b j => - range + (range - - range) * uniform b j).
  set (g := fun (b : nat) (cloud : array2) =>
              map (fun row => zip_with Rplus row (map (shifts b) (seq 0 3))) cloud).
  exists (mapi g batch). split.
  - apply (sequence_mapi (shape2 N 3)); [|exact Hc].
    intros k cloud [_ Hr].
    assert (Hall : forallb (fun row => (length row =? 3)%nat) cloud = true).
    { apply forallb_forall. intros row Hin. rewrite Forall_forall in Hr.
      rewrite (Hr row Hin). reflexivity. }
    rewrite Hall. reflexivity.
  - apply shape3_mapi; [|split; assumption].
    intros k cloud [Hn Hr]. split.
    + unfold g. rewrite length_map; exact Hn.
    + unfold g. apply Forall_map. eapply Forall_impl; [|exact Hr].
      intros row Hrow. simpl. rewrite zip_with_length, Hrow. reflexivity.
Qed.

Lemma jitter_point_cloud_shape randn sigma clip B N batch :
  0 < clip ->
  shape3 B N 3 batch ->
  exists out, jitter_point_cloud randn sigma clip batch = Some out
              /\ shape3 B N 3 out.
Proof.
  intros Hclip Hs. unfold jitter_point_cloud, Rltb.
  destruct (Rlt_dec 0 clip) as [_|Hn]; [|contradiction].
  eexists; split; [reflexivity|].
  apply shape3_mapi; [|exact Hs].
  intros b cloud [Hn Hr]. split.
  - rewrite mapi_length; exact Hn.
  - eapply Forall_mapi; [|exact Hr].
    intros n row Hrow. simpl. rewrite mapi_length; exact Hrow.
Qed.

(** A loop that multiplies every cloud by a matrix three columns wide. *)
Lemma rotate_loop_ok (matrix : nat -> array2) B N batch :
  (forall k, length (hd [] (matrix k)) = 3%nat) ->
  shape3 B N 3 batch ->
  mapM (fun rotated => rotated)
    (mapi (fun k shape_pc =>
             flat <- Np.reshape3 shape_pc ;;
             Np.assign shape_pc (Np.dot flat (matrix k)))
          batch)
  = Some (mapi (fun k shape_pc => Np.dot shape_pc (matrix k)) batch)
  /\ shape3 B N 3 (mapi (fun k shape_pc => Np.dot shape_pc (matrix k)) batch).
Proof.
  intros Hm [Hl Hc]. split.
  - apply (sequence_mapi (shape2 N 3)); [|exact Hc].
    intros k cloud Hs. apply (rotate_cloud_ok N cloud (matrix k) Hs (Hm k)).
  - apply shape3_mapi; [|split; assumption].
    intros k cloud Hs. apply (rotate_cloud_ok N cloud (matrix k) Hs (Hm k)).
Qed.

Lemma rotate_point_cloud_eq uniform B N batch :
  shape3 B N 3 batch ->
  let rotated := 
    mapi (fun k shape_pc =>
            Np.dot shape_pc
              [[cos (uniform k * 2 * PI); 0; sin (uniform k * 2 * PI)];
               [0; 1; 0];
               [- sin (uniform k * 2 * PI); 0; cos (uniform k * 2 * PI)]])
         batch in
  rotate_point_cloud uniform batch = Some rotated /\ shape3 B N 3 rotated.
Proof.
  intros Hs.
  apply (rotate_loop_ok
           (fun k => [[cos (uniform k * 2 * PI); 0; sin (uniform k * 2 * PI)];
                      [0; 1; 0];
                      [- sin (uniform k * 2 * PI); 0; cos (uniform k * 2 * PI)]])
           B N batch); [|exact Hs].
  intros k; reflexivity.
Qed.

Lemma rotate_perturbation_point_cloud_shape randn sigma clip B N batch :
  shape3 B N 3 batch ->
  exists out, rotate_perturbation_point_cloud randn sigma clip batch = Some out
              /\ shape3 B N 3 out.
Proof.
  intros Hs. unfold rotate_perturbation_point_cloud.
  match goal with
  | |- context [mapi (fun k shape_pc => _ <- _ ;; Np.assign _ (Np.dot _ (@?M k)))] =>
      destruct (rotate_loop_ok M B N batch) as [He Hsh];
        [intros k; reflexivity | exact Hs |]
  end.
  eexists; split; [exact He | exact Hsh].
Qed.

(** C4.  Each of the six augmentation functions maps an array of shape
    BxNx3 to an array of shape BxNx3, whatever values are drawn; for
    [jitter_point_cloud] the assertion [clip > 0] has to hold, as it does
    for the default [clip]. *)
Theorem augmentations_preserve_shape
    (d : draws) (max_dropout_ratio scale_low scale_high shift_range : R)
    (sigma clip angle_sigma angle_clip : R) (B N : nat) (batch : array3) :
  shape3 B N 3 batch ->
  0 < clip ->
  shape3 B N 3
    (random_point_dropout (dropout_random d) (dropout_random_n d)
       max_dropout_ratio batch)
  /\ shape3 B N 3
       (random_scale_point_cloud (scale_uniform d) scale_low scale_high batch)
  /\ (exists out, shift_point_cloud (shift_uniform d) shift_range batch = Some out
                  /\ shape3 B N 3 out)
  /\ (exists out, jitter_point_cloud (jitter_randn d) sigma clip batch = Some out
                  /\ shape3 B N 3 out)
  /\ (exists out, rotate_point_cloud (rotate_uniform d) batch = Some out
                  /\ shape3 B N 3 out)
  /\ (exists out,
         rotate_perturbation_point_cloud (perturbation_randn d)
           angle_sigma angle_clip batch = Some out
         /\ shape3 B N 3 out).
Proof.
  intros Hs Hclip.
  split; [|split; [|split; [|split; [|split]]]].
  - apply random_point_dropout_shape; exact Hs.
  - apply random_scale_point_cloud_shape; exact Hs.
  - apply shift_point_cloud_shape; exact Hs.
  - apply jitter_point_cloud_shape; assumption.
  - pose proof (rotate_point_cloud_eq (rotate_uniform d) B N batch Hs) as Heq.
    cbv zeta in Heq. destruct Heq as [He Hsh].
    eexists; split; eassumption.
  - apply rotate_perturbation_point_cloud_shape; exact Hs.
Qed.

Lemma augmentations_preserve_shape_witness :
  shape3 2 3 3 Samples.batch
  /\ 0 < 0.05
  /\ shape3 2 3 3
       (random_point_dropout (fun _ => 0.5) (fun _ _ => 0.5) 0.875 Samples.batch)
  /\ shape3 2 3 3
       (random_scale_point_cloud (fun _ => 0.5) 0.8 1.25 Samples.batch)
  /\ (exists out, shift_point_cloud (fun _ _ => 0.5) 0.1 Samples.batch = Some out
                  /\ shape3 2 3 3 out)
  /\ (exists out,
         jitter_point_cloud (fun _ _ _ => 1) 0.01 0.05 Samples.batch = Some out
         /\ shape3 2 3 3 out)
  /\ (exists out, rotate_point_cloud (fun _ => 0.5) Samples.batch = Some out
                  /\ shape3 2 3 3 out)
  /\ (exists out,
         rotate_perturbation_point_cloud (fun _ _ => 1) 0.06 0.18 Samples.batch
         = Some out
         /\ shape3 2 3 3 out).
Proof.
  assert (Hs : shape3 2 3 3 Samples.batch).
  { split; [reflexivity|]. repeat constructor. }
  assert (Hclip : 0 < 0.05) by lra.
  split; [exact Hs|]. split; [exact Hclip|].
  exact (augmentations_preserve_shape (Samples.constant_draws 0.5 1)
           0.875 0.8 1.25 0.1 0.01 0.05 0.06 0.18 2 3 Samples.batch Hs Hclip).
Defined.


Lemma nth_dot n cloud m :
  (n < length cloud)%nat ->
  nth n (Np.dot cloud m) [] = nth 0 (Np.dot [nth n cloud []] m) [].
Proof.
  intros Hn. unfold Np.dot. simpl.
  apply nth_error_nth. rewrite nth_error_map.
  rewrite (nth_error_nth' cloud [] Hn). reflexivity.
Qed.



(** What [random_point_dropout] does to one cloud. *)
Lemma dropout_cloud_points random_b ratio (cloud : array2) i p :
  nth_error cloud i = Some p ->
  let cloud' :=
    (let drop_idx :=
       filter (fun i => Rleb (random_b i) ratio) (seq 0 (length cloud)) in
     if (0 <? length drop_idx)%nat
     then mapi (fun i p =>
                  if existsb (Nat.eqb i) drop_idx then nth 0 cloud [] else p)
               cloud
     else cloud) in
  nth_error cloud' i = Some p \/ nth_error cloud' i = nth_error cloud 0.
Proof.
  intros Hp. cbv zeta.
  destruct (0 <? _)%nat; [|left; exact Hp].
  rewrite nth_error_mapi, Hp. simpl.
  destruct (existsb _ _); [right | left; reflexivity].
  destruct cloud as [|first rest]; [destruct i; discriminate | reflexivity].
Qed.

(** C10.  [random_point_dropout] introduces no new point: the output has
    the clouds of the input in the same order and with the same number of
    points, every output point is the input point at its position or the
    first point of its cloud, the first point of every cloud is unchanged,
    and every point of an output cloud is a point of the input cloud. *)
Theorem random_point_dropout_no_new_point (random : nat -> R)
    (random_n : nat -> nat -> R) (max_dropout_ratio : R) (batch_pc : array3) :
  let out := random_point_dropout random random_n max_dropout_ratio batch_pc in
  length out = length batch_pc
  /\ forall b cloud,
       nth_error batch_pc b = Some cloud ->
       exists cloud',
         nth_error out b = Some cloud'
         /\ length cloud' = length cloud
         /\ (forall i p,
                nth_error cloud i = Some p ->
                nth_error cloud' i = Some p
                \/ nth_error cloud' i = nth_error cloud 0)
         /\ nth_error cloud' 0 = nth_error cloud 0
         /\ (forall q, In q cloud' -> In q cloud).
Proof.
  cbv zeta. split; [apply mapi_length|].
  intros b cloud Hb. unfold random_point_dropout at 1.
  rewrite nth_error_mapi, Hb. simpl.
  eexists. split; [reflexivity|].
  set (cloud' := if (0 <? _)%nat then _ else cloud).
  assert (Hpt : forall i p, nth_error cloud i = Some p ->
                  nth_error cloud' i = Some p
                  \/ nth_error cloud' i = nth_error cloud 0).
  { intros i p Hp. apply (dropout_cloud_points (random_n b) _ cloud i p Hp). }
  assert (Hlen : length cloud' = length cloud).
  { subst cloud'. destruct (0 <? _)%nat; [apply mapi_length | reflexivity]. }
  split; [exact Hlen|]. split; [exact Hpt|]. split.
  - destruct cloud as [|first rest].
    + destruct cloud'; [reflexivity | discriminate].
    + destruct (Hpt 0%nat first eq_refl) as [H|H]; exact H.
  - intros q Hq. apply In_nth_error in Hq. destruct Hq as [i Hi].
    assert (Hi' : (i < length cloud)%nat).
    { rewrite <- Hlen. apply nth_error_Some. congruence. }
    destruct (nth_error cloud i) as [p|] eqn:Hp;
      [|apply nth_error_None in Hp; lia].
    destruct (Hpt i p Hp) as [H|H]; rewrite Hi in H.
    + injection H as ->. eapply nth_error_In; eauto.
    + symmetry in H. eapply nth_error_In; eauto.
Qed.

Lemma random_point_dropout_no_new_point_witness :
  let out := random_point_dropout (fun _ => 0.5) (fun b i => INR i / 4) 0.875
               Samples.batch in
  length out = length Samples.batch
  /\ forall b cloud,
       nth_error Samples.batch b = Some cloud ->
       exists cloud',
         nth_error out b = Some cloud'
         /\ length cloud' = length cloud
         /\ (forall i p,
                nth_error cloud i = Some p ->
                nth_error cloud' i = Some p
                \/ nth_error cloud' i = nth_error cloud 0)
         /\ nth_error cloud' 0 = nth_error cloud 0
         /\ (forall q, In q cloud' -> In q cloud).
Proof.
  exact (random_point_dropout_no_new_point (fun _ => 0.5) (fun b i => INR i / 4)
           0.875 Samples.batch).
Defined.

(** ** Farthest-point sampling *)

Lemma argmax_from_bound best_i best i l :
  (best_i < i)%nat -> (Np.argmax_from best_i best i l < i + length l)%nat.
Proof.
  revert best_i best i; induction l as [|x r IH]; intros best_i best i Hb; simpl.
  - lia.
  - destruct (Rltb best x).
    + specialize (IH i x (S i)). lia.
    + specialize (IH best_i best (S i)). lia.
Qed.

Lemma argmax_bound l :
  l <> [] -> exists i, Np.argmax l = Some i /\ (i < length l)%nat.
Proof.
  destruct l as [|x r]; [congruence|]. intros _. simpl.
  eexists; split; [reflexivity|].
  pose proof (argmax_from_bound 0 x 1 r). lia.
Qed.

(** The loop of [farthest_point_sample] runs to its end; it records the
    index it starts from first and only indices of points. *)
Lemma fps_loop_ok xyz iters centroids distance farthest :
  (farthest < length xyz)%nat ->
  length distance = length xyz ->
  exists written,
    fps_loop xyz iters centroids distance farthest = Some (centroids ++ written)
    /\ length written = iters
    /\ Forall (fun i => (i < length xyz)%nat) written
    /\ ((1 <= iters)%nat -> nth_error written 0 = Some farthest).
Proof.
  revert centroids distance farthest.
  induction iters as [|iters IH]; intros centroids distance farthest Hf Hd.
  - exists []. simpl. rewrite app_nil_r. repeat split; [constructor | lia].
  - simpl.
    destruct (nth_error xyz farthest) as [centroid|] eqn:Ec;
      [|apply nth_error_None in Ec; lia].
    simpl.
    set (distance' := zip_with _ _ distance).
    assert (Hd' : length distance' = length xyz).
    { subst distance'. rewrite zip_with_length, length_map, Hd. lia. }
    destruct (argmax_bound distance') as (f' & Ef & Hf').
    { intros E. rewrite E in Hd'. simpl in Hd'. lia. }
    rewrite Ef. simpl.
    destruct (IH (centroids ++ [farthest]) distance' f') as (w & Hw & Hlen & Hall & _).
    { lia. }
    { exact Hd'. }
    exists (farthest :: w). rewrite Hw, <- app_assoc. simpl.
    repeat split; [f_equal; exact Hlen | constructor; assumption].
Qed.

(** C2.  [farthest_point_sample] on an NxD array with a start index drawn
    below [N] returns an array of exactly [npoint] rows, all of width [D]
    and all rows of the input; its first row is the point at the start
    index, which is therefore among the rows returned. *)
Theorem farthest_point_sample_rows (randint : nat) (point : array2)
    (npoint N D : nat) :
  shape2 N D point ->
  (randint < N)%nat ->
  (1 <= npoint)%nat ->
  exists out first,
    farthest_point_sample randint point npoint = Some out
    /\ shape2 npoint D out
    /\ nth_error point randint = Some first
    /\ nth_error out 0 = Some first
    /\ In first out
    /\ (forall q, In q out -> In q point).
Proof.
  intros [HN Hrows] Hr Hn. unfold farthest_point_sample.
  destruct (Nat.eqb_spec (length point) 0) as [E|_]; [lia|].
  destruct (fps_loop_ok (map (firstn 3) point) npoint []
              (map (fun one => one * 1e10) (repeat 1 (length point))) randint)
    as (cs & Hcs & Hlen & Hall & Hfirst).
  { rewrite length_map. lia. }
  { rewrite !length_map, repeat_length. reflexivity. }
  rewrite Hcs. simpl. rewrite length_map in Hall.
  destruct (mapM_total (nth_error point) cs) as [out Hout].
  { eapply Forall_impl; [|exact Hall]. intros i Hi. simpl in Hi.
    destruct (nth_error point i) as [p|] eqn:Ep; [eexists; reflexivity|].
    apply nth_error_None in Ep. lia. }
  destruct (nth_error point randint) as [first|] eqn:Ef;
    [|apply nth_error_None in Ef; lia].
  assert (Hin : forall q, In q out -> In q point).
  { intros q Hq. apply In_nth_error in Hq. destruct Hq as [k Hk].
    rewrite (mapM_nth_error _ _ _ k Hout) in Hk.
    destruct (nth_error cs k); simpl in Hk; [|discriminate].
    eapply nth_error_In; eauto. }
  assert (H0 : nth_error out 0 = Some first).
  { rewrite (mapM_nth_error _ _ _ 0%nat Hout), (Hfirst Hn). simpl. exact Ef. }
  exists out, first. rewrite Hout. repeat split; try assumption; try reflexivity.
  - rewrite (mapM_length _ _ _ Hout). exact Hlen.
  - apply Forall_forall. intros q Hq. rewrite Forall_forall in Hrows. auto.
  - eapply nth_error_In; eauto.
Qed.

Lemma farthest_point_sample_rows_witness :
  shape2 3 3 Samples.three_points
  /\ (1 < 3)%nat
  /\ (1 <= 2)%nat
  /\ exists out first,
       farthest_point_sample 1 Samples.three_points 2 = Some out
       /\ shape2 2 3 out
       /\ nth_error Samples.three_points 1 = Some first
       /\ nth_error out 0 = Some first
       /\ In first out
       /\ (forall q, In q out -> In q Samples.three_points).
Proof.
  assert (Hs : shape2 3 3 Samples.three_points).
  { split; [reflexivity|]. repeat constructor. }
  assert (Hr : (1 < 3)%nat) by lia.
  assert (Hn : (1 <= 2)%nat) by lia.
  split; [exact Hs|]. split; [exact Hr|]. split; [exact Hn|].
  exact (farthest_point_sample_rows 1 Samples.three_points 2 3 3 Hs Hr Hn).
Defined.

(** ** Sums, maxima and norms *)

Lemma fold_left_Rplus_acc l acc : fold_left Rplus l acc = acc + Np.sum l.
Proof.
  unfold Np.sum. revert acc; induction l as [|x r IH]; intros acc; simpl.
  - ring.
  - rewrite IH, (IH (0 + x)). ring.
Qed.

Lemma sum_nil : Np.sum [] = 0.
Proof. reflexivity. Qed.

Lemma sum_cons x l : Np.sum (x :: l) = x + Np.sum l.
Proof. unfold Np.sum at 1. simpl. rewrite fold_left_Rplus_acc. ring. Qed.

Lemma sum_squares_nonneg l : 0 <= Np.sum (map (fun x => x ^ 2) l).
Proof.
  induction l as [|x r IH]; cbn [map].
  - rewrite sum_nil. lra.
  - rewrite sum_cons. pose proof (pow2_ge_0 x). lra.
Qed.

Lemma sum_squares_zero l :
  Np.sum (map (fun x => x ^ 2) l) = 0 -> Forall (fun x => x = 0) l.
Proof.
  induction l as [|x r IH]; cbn [map]; intros H; constructor.
  - rewrite sum_cons in H.
    pose proof (pow2_ge_0 x). pose proof (sum_squares_nonneg r).
    assert (Hx : x ^ 2 = 0) by lra.
    simpl in Hx. destruct (Rmult_integral _ _ Hx) as [E|E]; [exact E | lra].
  - apply IH. rewrite sum_cons in H.
    pose proof (pow2_ge_0 x). pose proof (sum_squares_nonneg r). lra.
Qed.

Lemma sum_squares_scaled m l :
  m <> 0 ->
  Np.sum (map (fun x => x ^ 2) (map (fun x => x / m) l))
  = Np.sum (map (fun x => x ^ 2) l) / m ^ 2.
Proof.
  intros Hm. induction l as [|x r IH]; cbn [map].
  - rewrite sum_nil. field. exact Hm.
  - rewrite !sum_cons, IH. field. exact Hm.
Qed.

(** The sum of [(f a - k) / m] over a list. *)
Lemma sum_centred {A : Type} (f : A -> R) k m (l : list A) :
  m <> 0 ->
  Np.sum (map (fun a => (f a - k) / m) l)
  = (Np.sum (map f l) - INR (length l) * k) / m.
Proof.
  intros Hm. induction l as [|a r IH].
  - simpl. rewrite sum_nil. field. exact Hm.
  - cbn [map]. rewrite !sum_cons, IH.
    change (length (a :: r)) with (S (length r)). rewrite S_INR.
    field. exact Hm.
Qed.

Lemma fold_Rmax_upper r x :
  x <= fold_left Rmax r x /\ Forall (fun y => y <= fold_left Rmax r x) r.
Proof.
  revert x; induction r as [|y r IH]; intros x; simpl.
  - split; [lra | constructor].
  - destruct (IH (Rmax x y)) as [H1 H2].
    pose proof (Rmax_l x y). pose proof (Rmax_r x y).
    split; [lra|]. constructor; [lra | exact H2].
Qed.

Lemma fold_Rmax_scaled m r x :
  0 < m ->
  fold_left Rmax (map (fun y => y / m) r) (x / m) = fold_left Rmax r x / m.
Proof.
  intros Hm. revert x; induction r as [|y r IH]; intros x; simpl.
  - reflexivity.
  - rewrite <- IH. f_equal.
    unfold Rdiv. rewrite !(Rmult_comm _ (/ m)).
    apply RmaxRmult. left. apply Rinv_0_lt_compat. exact Hm.
Qed.

(** ** Coordinates of sums and differences of rows *)

Lemma nth_zip_with (f : R -> R -> R) l1 l2 j :
  (j < length l1)%nat -> (j < length l2)%nat ->
  nth j (zip_with f l1 l2) 0 = f (nth j l1 0) (nth j l2 0).
Proof.
  revert l2 j; induction l1 as [|a r IH]; intros [|b l2] [|j] H1 H2;
    simpl in *; try lia; auto.
  apply IH; lia.
Qed.

Lemma fold_add_rows C rs r :
  length r = C -> Forall (fun row => length row = C) rs ->
  length (fold_left (zip_with Rplus) rs r) = C
  /\ forall j, (j < C)%nat ->
       nth j (fold_left (zip_with Rplus) rs r) 0
       = nth j r 0 + Np.sum (map (fun row => nth j row 0) rs).
Proof.
  intros Hr Hrs. revert r Hr; induction Hrs as [|row rs Hrow _ IH]; intros r Hr.
  - simpl. split; [exact Hr|]. intros j _. rewrite sum_nil. ring.
  - simpl fold_left.
    destruct (IH (zip_with Rplus r row)) as [Hl Hn].
    { rewrite zip_with_length, Hr, Hrow. apply Nat.min_id. }
    split; [exact Hl|]. intros j Hj.
    rewrite (Hn j Hj), nth_zip_with by lia.
    cbn [map]. rewrite sum_cons. ring.
Qed.

Lemma sum_axis0_spec N C a :
  shape2 N C a -> (1 <= N)%nat ->
  length (Np.sum_axis0 a) = C
  /\ forall j, (j < C)%nat ->
       nth j (Np.sum_axis0 a) 0 = Np.sum (map (fun row => nth j row 0) a).
Proof.
  intros [Hl Hr] HN. destruct a as [|r rs]; [simpl in Hl; lia|].
  inversion Hr as [|? ? Hrow Hrs]; subst. simpl Np.sum_axis0.
  destruct (fold_add_rows (length r) rs r eq_refl Hrs) as [Hlen Hn].
  split; [exact Hlen|]. intros j Hj. rewrite (Hn j Hj).
  cbn [map]. rewrite sum_cons. reflexivity.
Qed.

Lemma mean_axis0_spec N C a :
  shape2 N C a -> (1 <= N)%nat ->
  length (Np.mean_axis0 a) = C
  /\ forall j, (j < C)%nat ->
       nth j (Np.mean_axis0 a) 0
       = Np.sum (map (fun row => nth j row 0) a) / INR N.
Proof.
  intros Hs HN. destruct (sum_axis0_spec N C a Hs HN) as [Hl Hn].
  unfold Np.mean_axis0. split.
  - rewrite length_map. exact Hl.
  - intros j Hj.
    rewrite (nth_map_lt _ _ j 0 0) by lia.
    rewrite (Hn j Hj). destruct Hs as [-> _]. reflexivity.
Qed.

(** A row equal to the centroid leaves nothing after the subtraction, and
    conversely. *)
Lemma zip_minus_zero row c :
  length row = length c ->
  Forall (fun x => x = 0) (zip_with Rminus row c) -> row = c.
Proof.
  revert c; induction row as [|a r IH]; intros [|b c] Hl H; simpl in *;
    try discriminate; auto.
  inversion H; subst. f_equal; [lra|]. apply IH; [lia | assumption].
Qed.

(** ** Normalisation *)

Lemma centred_shape N C pc c :
  shape2 N C pc -> length c = C ->
  shape2 N C (map (fun row => zip_with Rminus row c) pc).
Proof.
  intros [Hl Hr] Hc. split.
  - rewrite length_map. exact Hl.
  - apply Forall_map. eapply Forall_impl; [|exact Hr].
    intros row Hrow. simpl. rewrite zip_with_length, Hrow, Hc. apply Nat.min_id.
Qed.

(** The largest distance to the centroid is positive as soon as two
    points differ. *)
Lemma max_norm_pos N C pc c m :
  shape2 N C pc -> length c = C ->
  (exists p q, In p pc /\ In q pc /\ p <> q) ->
  Np.amax (map sqrt (map (fun row => Np.sum (map (fun x => x ^ 2) row))
                         (map (fun row => zip_with Rminus row c) pc)))
  = Some m ->
  0 < m.
Proof.
  intros Hs Hc (p & q & Hp & Hq & Hpq) Hm.
  rewrite !map_map in Hm.
  set (norm := fun row =>
         sqrt (Np.sum (map (fun x => x ^ 2) (zip_with Rminus row c)))) in Hm.
  assert (Hup : forall row, In row pc -> norm row <= m).
  { destruct pc as [|r rs]; [discriminate|].
    simpl in Hm. injection Hm as <-.
    destruct (fold_Rmax_upper (map norm rs) (norm r)) as [H1 H2].
    intros row [<-|Hin]; [exact H1|].
    rewrite Forall_forall in H2. apply H2. apply in_map. exact Hin. }
  assert (Hlow : forall row, 0 <= norm row) by (intros; apply sqrt_pos).
  destruct (Rlt_le_dec 0 m) as [Hpos|Hle]; [exact Hpos | exfalso].
  assert (Hall : forall row, In row pc -> row = c).
  { intros row Hin.
    assert (Hz : norm row = 0).
    { pose proof (Hup row Hin). pose proof (Hlow row). lra. }
    apply zip_minus_zero.
    - rewrite Hc. exact (shape2_row N C pc row Hs Hin).
    - apply sum_squares_zero. apply sqrt_eq_0; [apply sum_squares_nonneg|].
      exact Hz. }
  apply Hpq. rewrite (Hall p Hp), (Hall q Hq). reflexivity.
Qed.



(** C8.  The three normalisation routines, [pc_normalize],
    [Objverse.pc_norm] and [ShapeNet.pc_norm], return the same result on
    every array (and raise on the same arrays). *)
Theorem pc_norm_routines_agree (pc : array2) :
  pc_normalize pc = Objverse.pc_norm pc
  /\ pc_normalize pc = ShapeNet.pc_norm pc
  /\ Objverse.pc_norm pc = ShapeNet.pc_norm pc.
Proof.
  unfold pc_normalize, Objverse.pc_norm, ShapeNet.pc_norm.
  repeat split.
Qed.

(** ** ModelNet: retrieval and the cache *)

Lemma pc_normalize_two_points :
  pc_normalize [[0; 0; 0]; [2; 0; 0]] = Some [[-1; 0; 0]; [1; 0; 0]].
Proof.
  unfold pc_normalize, Np.mean_axis0, Np.sum_axis0.
  cbn [map fold_left zip_with length INR].
  replace (Np.sum [(0 - (0 + 2) / (1 + 1)) ^ 2; (0 - (0 + 0) / (1 + 1)) ^ 2;
                   (0 - (0 + 0) / (1 + 1)) ^ 2]) with 1
    by (unfold Np.sum; simpl; field).
  replace (Np.sum [(2 - (0 + 2) / (1 + 1)) ^ 2; (0 - (0 + 0) / (1 + 1)) ^ 2;
                   (0 - (0 + 0) / (1 + 1)) ^ 2]) with 1
    by (unfold Np.sum; simpl; field).
  rewrite sqrt_1. cbn [Np.amax fold_left bind].
  rewrite Rmax_left by lra.
  repeat (f_equal; try field).
Qed.

Lemma pc_normalize_two_points_again :
  pc_normalize [[-1; 0; 0]; [1; 0; 0]] = Some [[-1; 0; 0]; [1; 0; 0]].
Proof.
  unfold pc_normalize, Np.mean_axis0, Np.sum_axis0.
  cbn [map fold_left zip_with length INR].
  replace (Np.sum [(-1 - (-1 + 1) / (1 + 1)) ^ 2; (0 - (0 + 0) / (1 + 1)) ^ 2;
                   (0 - (0 + 0) / (1 + 1)) ^ 2]) with 1
    by (unfold Np.sum; simpl; field).
  replace (Np.sum [(1 - (-1 + 1) / (1 + 1)) ^ 2; (0 - (0 + 0) / (1 + 1)) ^ 2;
                   (0 - (0 + 0) / (1 + 1)) ^ 2]) with 1
    by (unfold Np.sum; simpl; field).
  rewrite sqrt_1. cbn [Np.amax fold_left bind].
  rewrite Rmax_left by lra.
  repeat (f_equal; try field).
Qed.

Lemma get_item_modelnet_value :
  ModelNet._get_item Samples.modelnet Samples.modelnet_draws 0
  = Some (([[-1; 0; 0]; [1; 0; 0]], 0%Z),
          ModelNet.set_list_of_points Samples.modelnet
            [[[-1; 0; 0; 0; 0; 1]; [1; 0; 0; 0; 0; 1]]]).
Proof.
  unfold ModelNet._get_item, Samples.modelnet, Samples.modelnet_draws,
    Samples.cached_cloud.
  cbn -[pc_normalize]. rewrite pc_normalize_two_points. reflexivity.
Qed.

(** The sibling path: when fewer points are asked for than the cache
    holds, [farthest_point_sample] builds an array of its own and the cache
    is left as it was. *)
Lemma get_item_resampled_keeps_cache self d index p v r self' :
  ModelNet.process_data self = true ->
  resolve_index (length (ModelNet.list_of_points self)) index = Some p ->
  nth_error (ModelNet.list_of_points self) p = Some v ->
  (ModelNet.npoints self < length v)%nat ->
  ModelNet._get_item self d index = Some (r, self') ->
  ModelNet.list_of_points self' = ModelNet.list_of_points self.
Proof.
  intros Hpd Hres Hv Hlt. unfold ModelNet._get_item.
  rewrite Hpd, Hres. cbn [bind].
  destruct (getitem (ModelNet.list_of_labels self) index) as [label|];
    [|discriminate].
  cbn [bind ModelNet.deref]. rewrite Hv. cbn [bind].
  apply Nat.ltb_lt in Hlt. rewrite Hlt.
  destruct (farthest_point_sample _ v _) as [sampled|]; [|discriminate].
  cbn [bind ModelNet.deref].
  destruct (pc_normalize _) as [normalized|]; [|discriminate].
  cbn [bind ModelNet.write ModelNet.deref].
  destruct (ModelNet.use_height self).
  - destruct (Np.amin _) as [lowest|]; [|discriminate].
    cbn [bind]. destruct (nth_error label 0); [|discriminate].
    cbn [bind]. intros [= _ <-]. reflexivity.
  - cbn [bind]. destruct (nth_error label 0); [|discriminate].
    cbn [bind]. intros [= _ <-]. reflexivity.
Qed.

(** C7.  Retrieval writes to the cache.  On a [ModelNet] object whose
    cache holds one cloud of two points, with two points asked for,
    [__getitem__(0)] returns the normalised cloud and leaves the array
    cached at index 0 overwritten with the normalised coordinates: the
    stored state after the call differs from the state before it. *)
Theorem modelnet_getitem_overwrites_cache :
  exists sample self',
    ModelNet.__getitem__ Samples.modelnet Samples.modelnet_draws 0
    = Some (sample, self')
    /\ ModelNet.pc sample = [[-1; 0; 0]; [1; 0; 0]]
    /\ nth_error (ModelNet.list_of_points Samples.modelnet) 0
       = Some [[0; 0; 0; 0; 0; 1]; [2; 0; 0; 0; 0; 1]]
    /\ nth_error (ModelNet.list_of_points self') 0
       = Some [[-1; 0; 0; 0; 0; 1]; [1; 0; 0; 0; 0; 1]]
    /\ ModelNet.list_of_points self' <> ModelNet.list_of_points Samples.modelnet.
Proof.
  eexists. eexists. split.
  - unfold ModelNet.__getitem__. rewrite get_item_modelnet_value.
    reflexivity.
  - split; [reflexivity|]. split; [reflexivity|]. split; [reflexivity|].
    cbn. intros E. injection E as E. lra.
Qed.

Close Scope R_scope.

(** ** Collation of tensors *)

Section CollateFacts.

Import Collate.

Context {A : Type}.

Lemma shape_eqb_refl s : shape_eqb s s = true.
Proof. unfold shape_eqb. destruct (list_eq_dec Nat.eq_dec s s); congruence. Qed.

Lemma keep_examples_all (batch : list (tensor A)) S :
  Forall (fun x => shape x = S) batch ->
  5 <= hd 0 S ->
  keep_examples batch = Some batch.
Proof.
  intros H Hd. induction H as [|x r Hx _ IH]; simpl.
  - reflexivity.
  - unfold tensor_getitem. rewrite Hx.
    destruct S as [|d S']; simpl in Hd; [lia|].
    assert (E : (4 <? d) = true) by (apply Nat.ltb_lt; lia).
    rewrite E. simpl. rewrite IH. reflexivity.
Qed.

Lemma stack_same_shape (batch : list (tensor A)) S :
  batch <> [] ->
  Forall (fun x => shape x = S) batch ->
  stack batch
  = Some {| shape := length batch :: S; data := concat (map data batch) |}.
Proof.
  intros Hne H. destruct batch as [|x rest]; [congruence|].
  inversion H as [|? ? Hx Hrest]; subst. unfold stack.
  assert (E : forallb (fun y => shape_eqb (shape y) (shape x)) rest = true).
  { apply forallb_forall. intros y Hy. rewrite Forall_forall in Hrest.
    rewrite (Hrest y Hy). apply shape_eqb_refl. }
  rewrite E. reflexivity.
Qed.

Lemma concat_uniform_length (l : list (list A)) n :
  Forall (fun x => length x = n) l -> length (concat l) = length l * n.
Proof.
  induction 1 as [|x r Hx _ IH]; simpl; [reflexivity|].
  rewrite length_app, Hx, IH. reflexivity.
Qed.

(** Slice [i] of a concatenation of blocks of [n] entries is block [i]. *)
Lemma slice_concat (l : list (list A)) n i x :
  Forall (fun x => length x = n) l ->
  nth_error l i = Some x ->
  firstn n (skipn (i * n) (concat l)) = x.
Proof.
  intros H; revert i; induction H as [|y r Hy _ IH]; intros i Hi.
  - destruct i; discriminate.
  - destruct i as [|i]; simpl in *.
    + injection Hi as ->. rewrite <- Hy.
      rewrite firstn_app, Nat.sub_diag, firstn_all. simpl. apply app_nil_r.
    + rewrite skipn_app, Hy.
      rewrite skipn_all2 by lia.
      replace (n + i * n - n) with (i * n) by lia.
      simpl. apply IH. exact Hi.
Qed.

End CollateFacts.

(** X23.  Where the filter on [example[4]] does not raise,
    [customized_collate_fn] stacks: on a non-empty batch of [k] well-formed
    tensors of one shape [S] that is a tuple, or a Python list of tensors
    with at least five entries along the first axis, it returns the tensor
    of shape [k]x[S] whose slice [i] along the first axis is element [i] of
    the batch. *)
Theorem customized_collate_fn_stacks {A : Type} (kind : Collate.container)
    (worker : bool) (batch : list (Collate.tensor A)) (S : list nat) :
  batch <> [] ->
  Forall (fun x => Collate.shape x = S /\ Collate.well_formed x) batch ->
  (kind = Collate.PyList -> 5 <= hd 0 S) ->
  exists out,
    Collate.customized_collate_fn kind worker batch = Some out
    /\ Collate.shape out = length batch :: S
    /\ Collate.well_formed out
    /\ forall i x, nth_error batch i = Some x ->
                   Collate.tensor_getitem out i = Some x.
Proof.
  intros Hne Hall Hkind.
  assert (Hshape : Forall (fun x => Collate.shape x = S) batch).
  { eapply Forall_impl; [|exact Hall]. intros x [H _]; exact H. }
  assert (Hlen : Forall (fun d => length d = Collate.numel S)
                        (map Collate.data batch)).
  { apply Forall_map. eapply Forall_impl; [|exact Hall].
    intros x [Hs Hw]. simpl. unfold Collate.well_formed in Hw.
    rewrite Hw, Hs. reflexivity. }
  unfold Collate.customized_collate_fn.
  destruct batch as [|x0 rest] eqn:Eb; [congruence|]. rewrite <- Eb in *.
  assert (E0 : nth_error batch 0 = Some x0) by (rewrite Eb; reflexivity).
  rewrite E0. cbn [bind].
  assert (Ekeep : match kind with
                  | Collate.PyList => Collate.keep_examples batch
                  | Collate.PyTuple => Some batch
                  end = Some batch).
  { destruct kind; [|reflexivity].
    apply (keep_examples_all batch S Hshape). apply Hkind; reflexivity. }
  rewrite Ekeep. cbn [bind].
  rewrite (stack_same_shape batch S Hne Hshape).
  eexists. split; [reflexivity|]. split; [reflexivity|]. split.
  - unfold Collate.well_formed. cbn [Collate.data Collate.shape Collate.numel fold_right].
    rewrite (concat_uniform_length _ _ Hlen), length_map. reflexivity.
  - intros i x Hi. unfold Collate.tensor_getitem. cbn [Collate.shape Collate.data].
    assert (Hi' : i < length batch) by (apply nth_error_Some; congruence).
    apply Nat.ltb_lt in Hi'. rewrite Hi'.
    rewrite (slice_concat _ (Collate.numel S) i (Collate.data x) Hlen)
      by (rewrite nth_error_map, Hi; reflexivity).
    rewrite Forall_forall in Hshape.
    rewrite <- (Hshape x (nth_error_In _ _ Hi)).
    destruct x; reflexivity.
Qed.

Lemma customized_collate_fn_stacks_witness :
  [Samples.tall_tensor; Samples.tall_tensor] <> []
  /\ Forall (fun x => Collate.shape x = [5; 2] /\ Collate.well_formed x)
            [Samples.tall_tensor; Samples.tall_tensor]
  /\ (Collate.PyList = Collate.PyList -> 5 <= hd 0 [5; 2])
  /\ exists out,
       Collate.customized_collate_fn Collate.PyList false
         [Samples.tall_tensor; Samples.tall_tensor] = Some out
       /\ Collate.shape out = length [Samples.tall_tensor; Samples.tall_tensor] :: [5; 2]
       /\ Collate.well_formed out
       /\ forall i x,
            nth_error [Samples.tall_tensor; Samples.tall_tensor] i = Some x ->
            Collate.tensor_getitem out i = Some x.
Proof.
  assert (Hne : [Samples.tall_tensor; Samples.tall_tensor] <> []) by discriminate.
  assert (Hall : Forall (fun x => Collate.shape x = [5; 2] /\ Collate.well_formed x)
                        [Samples.tall_tensor; Samples.tall_tensor]).
  { repeat constructor. }
  assert (Hk : Collate.PyList = Collate.PyList -> 5 <= hd 0 [5; 2])
    by (intros _; simpl; lia).
  split; [exact Hne|]. split; [exact Hall|]. split; [exact Hk|].
  exact (customized_collate_fn_stacks Collate.PyList false
           [Samples.tall_tensor; Samples.tall_tensor] [5; 2] Hne Hall Hk).
Defined.

(** C3, which the code does not meet.  A Python list of two tensors of
    shape (3,) is a non-empty batch of same-shaped tensors.  The filter on
    [example[4]], written for the five-field samples of the datasets, is run
    on every list: it indexes each tensor at 4 and raises, with or without
    a worker, where the claim has the tensor of shape 2x3.  The same two
    tensors in a tuple, which the filter leaves alone, are stacked into that
    tensor. *)
Theorem customized_collate_fn_list_filter_raises :
  Collate.well_formed Samples.short_tensor
  /\ Collate.shape Samples.short_tensor = [3]
  /\ Collate.keep_examples [Samples.short_tensor; Samples.short_tensor] = None
  /\ Collate.customized_collate_fn Collate.PyList false
       [Samples.short_tensor; Samples.short_tensor] = None
  /\ Collate.customized_collate_fn Collate.PyList true
       [Samples.short_tensor; Samples.short_tensor] = None
  /\ Collate.customized_collate_fn Collate.PyTuple false
       [Samples.short_tensor; Samples.short_tensor]
     = Some {| Collate.shape := [2; 3];
               Collate.data := [1; 2; 3; 1; 2; 3]%Z |}.
Proof. repeat split. Qed.

(** ** The augmentation chains of the adapters *)

(** C5 as the code has it.  The two adapters that augment, Objverse and
    ShapeNet, apply the same fixed sequence after the normalisation:
    [random_point_dropout], [random_scale_point_cloud], [shift_point_cloud],
    [rotate_perturbation_point_cloud], [rotate_point_cloud], each with its
    default arguments; [jitter_point_cloud] is not among the steps. *)
Theorem augment_chain_as_coded (d : draws) (pc : array2) :
  Objverse.augment_chain = ShapeNet.augment_chain
  /\ Objverse.augment_chain
     = [RandomPointDropout; RandomScalePointCloud; ShiftPointCloud;
        RotatePerturbationPointCloud; RotatePointCloud]
  /\ ~ In JitterPointCloud Objverse.augment_chain
  /\ ~ In JitterPointCloud ShapeNet.augment_chain
  /\ Objverse.getitem_pc d true pc
     = (pc <- Objverse.pc_norm pc ;;
        let pc := random_point_dropout (dropout_random d) (dropout_random_n d)
                    0.875 [pc] in
        let pc := random_scale_point_cloud (scale_uniform d) 0.8 1.25 pc in
        pc <- shift_point_cloud (shift_uniform d) 0.1 pc ;;
        pc <- rotate_perturbation_point_cloud (perturbation_randn d) 0.06 0.18 pc ;;
        rotate_point_cloud (rotate_uniform d) pc)
  /\ ShapeNet.getitem_pc d true pc = Objverse.getitem_pc d true pc.
Proof.
  split; [reflexivity|]. split; [reflexivity|].
  split; [|split; [|split]].
  - simpl. intros [H|[H|[H|[H|[H|[]]]]]]; discriminate H.
  - simpl. intros [H|[H|[H|[H|[H|[]]]]]]; discriminate H.
  - unfold Objverse.getitem_pc, Objverse.augment_chain.
    destruct (Objverse.pc_norm pc) as [n|]; [|reflexivity].
    cbn [bind run_chain call].
    destruct (shift_point_cloud _ _ _) as [s|]; [|reflexivity].
    cbn [bind].
    destruct (rotate_perturbation_point_cloud _ _ _ _) as [p|]; [|reflexivity].
    cbn [bind].
    destruct (rotate_point_cloud _ _) as [r|]; reflexivity.
  - reflexivity.
Qed.

(** C5 as the specification has it fails: the chain of the code is not
    the chain with jitter in it. *)
Lemma augment_chain_has_no_jitter :
  ~ (Objverse.augment_chain = specified_augment_chain
     /\ ShapeNet.augment_chain = specified_augment_chain
     /\ In JitterPointCloud Objverse.augment_chain
     /\ In JitterPointCloud ShapeNet.augment_chain).
Proof.
  intros [H _]. discriminate H.
Qed.

(** ** The binary64 code against the exact statements *)

Section Binary64.

Import PrimFloat.




End Binary64.

(** * Further properties *)

(** ** Objverse: bucket lookup, both ways *)

Section BucketRoundTrip.

Import Objverse.
Open Scope Z_scope.

Lemma total_nonneg l : Forall (fun n => 0 <= n) l -> 0 <= total l.
Proof.
  induction 1 as [|x r Hx _ IH]; unfold total in *; simpl; lia.
Qed.

Lemma cumsum_from_bounded acc l :
  Forall (fun n => 0 <= n) l ->
  Forall (fun s => acc <= s <= acc + total l) (cumsum_from acc l).
Proof.
  intros H; revert acc; induction H as [|x r Hx Hr IH]; intros acc; simpl.
  - constructor.
  - pose proof (total_nonneg r Hr) as Ht.
    change (total (x :: r)) with (x + total r).
    constructor; [lia|].
    eapply Forall_impl; [|exact (IH (acc + x))].
    intros s Hs. simpl in Hs. lia.
Qed.

Lemma find_bucket_loop_none id scales bid :
  Forall (fun s => s <= id) scales -> find_bucket_loop id scales bid = None.
Proof.
  intros H; revert bid; induction H as [|s r Hs _ IH]; intros bid; simpl.
  - reflexivity.
  - assert (E : (id >=? s) = true) by (apply Z.geb_le; lia).
    rewrite E. apply IH.
Qed.

(** The cumulative sizes grow with the bucket. *)
Lemma cumsum_monotone entries j k :
  Forall (fun n => 0 <= n) entries ->
  (j <= k)%nat -> (k < length entries)%nat ->
  nth j (cumsum entries) 0 <= nth k (cumsum entries) 0.
Proof.
  intros Hpos Hjk Hk. induction k as [|k IH].
  - replace j with 0%nat by lia. lia.
  - destruct (Nat.eq_dec j (S k)) as [->|Hne]; [lia|].
    assert (Hstep : nth k (cumsum entries) 0 <= nth (S k) (cumsum entries) 0).
    { unfold cumsum. rewrite (cumsum_from_nth 0 entries (S k) Hk).
      assert (0 <= nth (S k) entries 0).
      { rewrite Forall_forall in Hpos. apply Hpos. apply nth_In. exact Hk. }
      lia. }
    specialize (IH ltac:(lia) ltac:(lia)). lia.
Qed.

Lemma nth_cumsum entries b :
  (b < length entries)%nat ->
  nth b (cumsum entries) 0 = initial_idx b (cumsum entries) + nth b entries 0.
Proof.
  intros Hb. unfold cumsum. rewrite (cumsum_from_nth 0 entries b Hb).
  destruct b; reflexivity.
Qed.

(** X1.  Entry [k] of bucket [b] sits at dataset index [initial_idx b + k], and
    [__getitem__] finds it there: the lookup sends that index back to bucket
    [b] and key [k]. *)
Theorem locate_round_trip (entries : list Z) (b : nat) (k : Z) :
  Forall (fun n => 0 <= n) entries ->
  (b < length entries)%nat ->
  0 <= k < nth b entries 0 ->
  locate (initial_idx b (cumsum entries) + k) (cumsum entries) = Some (b, k).
Proof.
  intros Hpos Hb Hk.
  set (index := initial_idx b (cumsum entries) + k).
  assert (Hup : index < nth b (cumsum entries) 0).
  { rewrite (nth_cumsum entries b Hb). unfold index. lia. }
  assert (Hex : exists s, In s (cumsum entries) /\ index < s).
  { exists (nth b (cumsum entries) 0). split; [|exact Hup].
    apply nth_In. unfold cumsum. rewrite cumsum_from_length. exact Hb. }
  destruct (find_bucket_loop_spec index (cumsum entries) 0 Hex)
    as (b' & Hfind & Hlen & Hup' & Hlow).
  simpl in Hfind. unfold cumsum in Hlen. rewrite cumsum_from_length in Hlen.
  assert (Eb : b' = b).
  { destruct (Nat.lt_trichotomy b' b) as [Hlt|[E|Hgt]]; [exfalso | exact E | exfalso].
    - destruct b as [|b0]; [lia|].
      pose proof (cumsum_monotone entries b' b0 Hpos ltac:(lia) ltac:(lia)) as Hm.
      unfold index in Hup'. simpl in Hup'. lia.
    - specialize (Hlow b Hgt). lia. }
  subst b'. unfold locate, find_bucket. rewrite Hfind. simpl.
  f_equal. f_equal. unfold index. lia.
Qed.

Lemma locate_round_trip_witness :
  Forall (fun n => 0 <= n) [2; 0; 3]
  /\ (2 < length [2; 0; 3])%nat
  /\ 0 <= 1 < nth 2 [2; 0; 3] 0
  /\ locate (initial_idx 2 (cumsum [2; 0; 3]) + 1) (cumsum [2; 0; 3]) = Some (2%nat, 1).
Proof.
  assert (Hpos : Forall (fun n => 0 <= n) [2; 0; 3]) by (repeat constructor; lia).
  assert (Hb : (2 < length [2; 0; 3])%nat) by (simpl; lia).
  assert (Hk : 0 <= 1 < nth 2 [2; 0; 3] 0) by (simpl; lia).
  split; [exact Hpos|]. split; [exact Hb|]. split; [exact Hk|].
  exact (locate_round_trip [2; 0; 3] 2 1 Hpos Hb Hk).
Defined.

(** X2.  An index at or past the number of entries finds no bucket:
    [find_bucket] falls off its loop and returns [None], and
    [__getitem__] raises on [bucket_idx - 1]. *)
Theorem find_bucket_past_the_end (entries : list Z) (index : Z) :
  Forall (fun n => 0 <= n) entries ->
  total entries <= index ->
  find_bucket index (cumsum entries) = None
  /\ locate index (cumsum entries) = None.
Proof.
  intros Hpos Hidx.
  assert (H : find_bucket index (cumsum entries) = None).
  { apply find_bucket_loop_none.
    eapply Forall_impl; [|exact (cumsum_from_bounded 0 entries Hpos)].
    intros s Hs. simpl in Hs. lia. }
  split; [exact H|]. unfold locate. rewrite H. reflexivity.
Qed.

Lemma find_bucket_past_the_end_witness :
  Forall (fun n => 0 <= n) [2; 0; 3]
  /\ total [2; 0; 3] <= 5
  /\ find_bucket 5 (cumsum [2; 0; 3]) = None
  /\ locate 5 (cumsum [2; 0; 3]) = None.
Proof.
  assert (Hpos : Forall (fun n => 0 <= n) [2; 0; 3]) by (repeat constructor; lia).
  assert (Hidx : total [2; 0; 3] <= 5) by (vm_compute; congruence).
  split; [exact Hpos|]. split; [exact Hidx|].
  exact (find_bucket_past_the_end [2; 0; 3] 5 Hpos Hidx).
Defined.

(** X3.  A negative index is not counted from the end: it lands in the first
    bucket with itself as key, which is no entry of the bucket. *)
Theorem locate_negative_index (entries : list Z) (index : Z) :
  Forall (fun n => 0 <= n) entries ->
  entries <> [] ->
  index < 0 ->
  locate index (cumsum entries) = Some (0%nat, index).
Proof.
  intros Hpos Hne Hidx. destruct entries as [|x r]; [congruence|].
  inversion Hpos; subst.
  unfold locate, find_bucket, cumsum. simpl.
  assert (E : (index >=? x) = false).
  { rewrite Z.geb_leb. apply Z.leb_gt. lia. }
  rewrite E. simpl. f_equal. f_equal. lia.
Qed.

Lemma locate_negative_index_witness :
  Forall (fun n => 0 <= n) [2; 0; 3]
  /\ [2; 0; 3] <> []
  /\ -1 < 0
  /\ locate (-1) (cumsum [2; 0; 3]) = Some (0%nat, -1).
Proof.
  assert (Hpos : Forall (fun n => 0 <= n) [2; 0; 3]) by (repeat constructor; lia).
  assert (Hne : [2; 0; 3] <> []) by discriminate.
  assert (Hidx : -1 < 0) by lia.
  split; [exact Hpos|]. split; [exact Hne|]. split; [exact Hidx|].
  exact (locate_negative_index [2; 0; 3] (-1) Hpos Hne Hidx).
Defined.

End BucketRoundTrip.

(** ** Augmentations: what they do to the points *)

Open Scope R_scope.

Lemma clip_within x c : 0 < c -> - c <= Np.clip x (-1 * c) c <= c.
Proof.
  intros Hc. unfold Np.clip.
  pose proof (Rmax_r x (-1 * c)).
  split.
  - apply Rmin_glb; lra.
  - apply Rmin_r.
Qed.

(** X4.  In exact arithmetic, [jitter_point_cloud] moves every coordinate
    by at most [clip], whatever noise is drawn and whatever [sigma] is (in
    the code the sum of a coordinate and its clipped noise is rounded, which
    can carry it a rounding error further); with a [clip] that is not
    positive its assertion fails. *)
Theorem jitter_point_cloud_within_clip (randn : nat -> nat -> nat -> R)
    (sigma clip : R) (batch_data : array3) :
  (clip <= 0 -> jitter_point_cloud randn sigma clip batch_data = None)
  /\ (0 < clip ->
      exists jittered_data,
        jitter_point_cloud randn sigma clip batch_data = Some jittered_data
        /\ forall b n c x,
             entry3 batch_data b n c = Some x ->
             exists y, entry3 jittered_data b n c = Some y
                       /\ Rabs (y - x) <= clip).
Proof.
  unfold jitter_point_cloud, Rltb. split.
  - intros Hc. destruct (Rlt_dec 0 clip) as [H|_]; [lra | reflexivity].
  - intros Hc. destruct (Rlt_dec 0 clip) as [_|H]; [|contradiction].
    eexists. split; [reflexivity|].
    intros b n c x. unfold entry3, entry2.
    rewrite !nth_error_mapi.
    destruct (nth_error batch_data b) as [cloud|]; [|discriminate].
    cbn [bind option_map]. rewrite nth_error_mapi.
    destruct (nth_error cloud n) as [row|]; [|discriminate].
    cbn [bind option_map]. rewrite nth_error_mapi.
    destruct (nth_error row c) as [x'|]; [|discriminate].
    cbn [option_map]. intros [= ->].
    eexists. split; [reflexivity|].
    pose proof (clip_within (sigma * randn b n c) clip Hc) as Hb.
    apply Rabs_le. lra.
Qed.

Lemma jitter_point_cloud_within_clip_witness :
  (0.05 <= 0 -> jitter_point_cloud (fun _ _ _ => 7) 0.01 0.05 Samples.batch = None)
  /\ (0 < 0.05 ->
      exists jittered_data,
        jitter_point_cloud (fun _ _ _ => 7) 0.01 0.05 Samples.batch
        = Some jittered_data
        /\ forall b n c x,
             entry3 Samples.batch b n c = Some x ->
             exists y, entry3 jittered_data b n c = Some y
                       /\ Rabs (y - x) <= 0.05).
Proof.
  exact (jitter_point_cloud_within_clip (fun _ _ _ => 7) 0.01 0.05 Samples.batch).
Defined.

(** A rotation about the second axis keeps the norm of a point. *)
Lemma rotation_keeps_sqnorm th x y z :
  sqnorm (nth 0 (Np.dot [[x; y; z]]
                   [[cos th; 0; sin th]; [0; 1; 0]; [- sin th; 0; cos th]]) [])
  = sqnorm [x; y; z].
Proof.
  pose proof (sin2_cos2 th) as H. unfold Rsqr in H.
  unfold sqnorm. simpl. unfold Np.sum. simpl.
  generalize dependent (cos th). generalize dependent (sin th).
  intros s c H. nsatz.
Qed.

(** X5.  [rotate_point_cloud] keeps the distance of every point to the origin,
    whatever angles are drawn. *)
Theorem rotate_point_cloud_keeps_norm (uniform : nat -> R) (B N : nat)
    (batch_data : array3) :
  shape3 B N 3 batch_data ->
  exists rotated_data,
    rotate_point_cloud uniform batch_data = Some rotated_data
    /\ forall k n,
         (k < B)%nat -> (n < N)%nat ->
         sqnorm (nth n (nth k rotated_data []) [])
         = sqnorm (nth n (nth k batch_data []) []).
Proof.
  intros Hs.
  pose proof (rotate_point_cloud_eq uniform B N batch_data Hs) as Heq.
  cbv zeta in Heq. destruct Heq as [He _].
  eexists. split; [exact He|].
  intros k n Hk Hn. destruct Hs as [Hl Hc].
  assert (Hk' : (k < length batch_data)%nat) by (rewrite Hl; exact Hk).
  rewrite (@nth_mapi array2 array2 _ batch_data k [] [] Hk').
  assert (Hcloud : shape2 N 3 (nth k batch_data [])).
  { rewrite Forall_forall in Hc. apply Hc. apply nth_In. exact Hk'. }
  destruct Hcloud as [HN Hrows].
  assert (Hn' : (n < length (nth k batch_data []))%nat) by (rewrite HN; exact Hn).
  rewrite (nth_dot n _ _ Hn').
  assert (Hrow : length (nth n (nth k batch_data []) []) = 3%nat).
  { rewrite Forall_forall in Hrows. apply Hrows. apply nth_In. exact Hn'. }
  destruct (nth n (nth k batch_data []) []) as [|x [|y [|z [|? ?]]]];
    try discriminate.
  apply rotation_keeps_sqnorm.
Qed.

Lemma rotate_point_cloud_keeps_norm_witness :
  shape3 2 3 3 Samples.batch
  /\ exists rotated_data,
       rotate_point_cloud (fun _ => 0.25) Samples.batch = Some rotated_data
       /\ forall k n,
            (k < 2)%nat -> (n < 3)%nat ->
            sqnorm (nth n (nth k rotated_data []) [])
            = sqnorm (nth n (nth k Samples.batch []) []).
Proof.
  assert (Hs : shape3 2 3 3 Samples.batch).
  { split; [reflexivity|]. repeat constructor. }
  split; [exact Hs|].
  exact (rotate_point_cloud_keeps_norm (fun _ => 0.25) 2 3 Samples.batch Hs).
Defined.

(** The product of the three small rotations keeps the norm of a point. *)
Lemma perturbation_keeps_sqnorm a0 a1 a2 x y z :
  sqnorm
    (nth 0
       (Np.dot [[x; y; z]]
          (Np.dot [[cos a2; - sin a2; 0]; [sin a2; cos a2; 0]; [0; 0; 1]]
             (Np.dot [[cos a1; 0; sin a1]; [0; 1; 0]; [- sin a1; 0; cos a1]]
                [[1; 0; 0]; [0; cos a0; - sin a0]; [0; sin a0; cos a0]])))
       [])
  = sqnorm [x; y; z].
Proof.
  pose proof (sin2_cos2 a0) as H0. pose proof (sin2_cos2 a1) as H1.
  pose proof (sin2_cos2 a2) as H2. unfold Rsqr in H0, H1, H2.
  unfold sqnorm. simpl. unfold Np.sum. simpl.
  generalize dependent (cos a0). generalize dependent (sin a0).
  generalize dependent (cos a1). generalize dependent (sin a1).
  generalize dependent (cos a2). generalize dependent (sin a2).
  intros s2 c2 H2 s1 c1 H1 s0 c0 H0. nsatz.
Qed.

(** X6.  [rotate_perturbation_point_cloud] keeps the distance of every point to
    the origin, whatever angles are drawn and however they are clipped. *)
Theorem rotate_perturbation_point_cloud_keeps_norm (randn : nat -> nat -> R)
    (angle_sigma angle_clip : R) (B N : nat) (batch_data : array3) :
  shape3 B N 3 batch_data ->
  exists rotated_data,
    rotate_perturbation_point_cloud randn angle_sigma angle_clip batch_data
    = Some rotated_data
    /\ forall k n,
         (k < B)%nat -> (n < N)%nat ->
         sqnorm (nth n (nth k rotated_data []) [])
         = sqnorm (nth n (nth k batch_data []) []).
Proof.
  intros Hs. unfold rotate_perturbation_point_cloud.
  match goal with
  | |- context [mapi (fun k shape_pc => _ <- _ ;; Np.assign _ (Np.dot _ (@?M k)))] =>
      destruct (rotate_loop_ok M B N batch_data) as [He _];
        [intros k; reflexivity | exact Hs |]
  end.
  eexists. split; [exact He|].
  intros k n Hk Hn. destruct Hs as [Hl Hc].
  assert (Hk' : (k < length batch_data)%nat) by (rewrite Hl; exact Hk).
  rewrite (@nth_mapi array2 array2 _ batch_data k [] [] Hk').
  assert (Hcloud : shape2 N 3 (nth k batch_data [])).
  { rewrite Forall_forall in Hc. apply Hc. apply nth_In. exact Hk'. }
  destruct Hcloud as [HN Hrows].
  assert (Hn' : (n < length (nth k batch_data []))%nat) by (rewrite HN; exact Hn).
  rewrite (nth_dot n _ _ Hn').
  assert (Hrow : length (nth n (nth k batch_data []) []) = 3%nat).
  { rewrite Forall_forall in Hrows. apply Hrows. apply nth_In. exact Hn'. }
  destruct (nth n (nth k batch_data []) []) as [|x [|y [|z [|? ?]]]];
    try discriminate.
  apply perturbation_keeps_sqnorm.
Qed.

Lemma rotate_perturbation_point_cloud_keeps_norm_witness :
  shape3 2 3 3 Samples.batch
  /\ exists rotated_data,
       rotate_perturbation_point_cloud (fun _ _ => 1) 0.06 0.18 Samples.batch
       = Some rotated_data
       /\ forall k n,
            (k < 2)%nat -> (n < 3)%nat ->
            sqnorm (nth n (nth k rotated_data []) [])
            = sqnorm (nth n (nth k Samples.batch []) []).
Proof.
  assert (Hs : shape3 2 3 3 Samples.batch).
  { split; [reflexivity|]. repeat constructor. }
  split; [exact Hs|].
  exact (rotate_perturbation_point_cloud_keeps_norm (fun _ _ => 1) 0.06 0.18
           2 3 Samples.batch Hs).
Defined.

(** ** Normalisation: what it removes and what it leaves *)

Lemma pc_normalize_eq pc :
  pc_normalize pc
  = (m <- Np.amax
            (map sqrt
               (map (fun row => Np.sum (map (fun x => x ^ 2) row))
                  (map (fun row => zip_with Rminus row (Np.mean_axis0 pc)) pc))) ;;
     Some (map (map (fun x => x / m))
             (map (fun row => zip_with Rminus row (Np.mean_axis0 pc)) pc))).
Proof. reflexivity. Qed.

Lemma sum_shifted {A : Type} (f : A -> R) k (l : list A) :
  Np.sum (map (fun a => f a + k) l) = Np.sum (map f l) + INR (length l) * k.
Proof.
  induction l as [|a r IH].
  - simpl. rewrite sum_nil. ring.
  - cbn [map]. rewrite !sum_cons, IH.
    change (length (a :: r)) with (S (length r)). rewrite S_INR. ring.
Qed.

Lemma sum_scaled {A : Type} (f : A -> R) s (l : list A) :
  Np.sum (map (fun a => s * f a) l) = s * Np.sum (map f l).
Proof.
  induction l as [|a r IH].
  - simpl. rewrite sum_nil. ring.
  - cbn [map]. rewrite !sum_cons, IH. ring.
Qed.

Lemma zip_minus_zeros row C :
  length row = C -> zip_with Rminus row (repeat 0 C) = row.
Proof.
  revert C; induction row as [|a r IH]; intros C H; simpl in H; subst C; simpl.
  - reflexivity.
  - rewrite IH by reflexivity. f_equal. ring.
Qed.

(** The centroid of a normalised cloud is the origin. *)
Lemma normalized_mean_zero N C pc m :
  shape2 N C pc -> (1 <= N)%nat -> m <> 0 ->
  Np.mean_axis0
    (map (map (fun x => x / m))
       (map (fun row => zip_with Rminus row (Np.mean_axis0 pc)) pc))
  = repeat 0 C.
Proof.
  intros Hs HN Hm0.
  destruct (mean_axis0_spec N C pc Hs HN) as [Hclen Hc].
  pose proof (centred_shape N C pc _ Hs Hclen) as Hq.
  pose proof (shape2_map_map N C (fun x => x / m) _ Hq) as Hout.
  destruct (mean_axis0_spec N C _ Hout HN) as [Hlen Hn].
  apply (nth_ext _ _ 0 0).
  - rewrite Hlen, repeat_length. reflexivity.
  - intros j Hj. rewrite Hlen in Hj. rewrite (Hn j Hj), nth_repeat.
    rewrite !map_map.
    rewrite (map_ext_in _ (fun row => (nth j row 0 - nth j (Np.mean_axis0 pc) 0) / m)).
    + rewrite sum_centred by exact Hm0.
      destruct Hs as [Hl Hr]. rewrite Hl, (Hc j Hj).
      assert (HN0 : INR N <> 0) by (apply not_0_INR; lia).
      field. split; assumption.
    + intros row Hin.
      assert (Hrow : length row = C) by exact (shape2_row N C pc row Hs Hin).
      rewrite (nth_map_lt _ _ j 0 0)
        by (rewrite zip_with_length, Hrow, Hclen, Nat.min_id; exact Hj).
      rewrite nth_zip_with by lia. reflexivity.
Qed.

(** Dividing the points by [m] divides their norms by [m]. *)
Lemma normalized_norms q m :
  0 < m ->
  map sqrt (map (fun row => Np.sum (map (fun x => x ^ 2) row))
              (map (map (fun x => x / m)) q))
  = map (fun y => y / m)
      (map sqrt (map (fun row => Np.sum (map (fun x => x ^ 2) row)) q)).
Proof.
  intros Hm. rewrite !map_map. apply map_ext. intros row.
  rewrite sum_squares_scaled by lra.
  rewrite sqrt_div_alt by (apply pow_lt; exact Hm).
  rewrite sqrt_pow2 by lra. reflexivity.
Qed.

Lemma pc_normalize_again (pc out : array2) (N C : nat) :
  shape2 N C pc ->
  (1 <= N)%nat ->
  (exists p q, In p pc /\ In q pc /\ p <> q) ->
  pc_normalize pc = Some out ->
  pc_normalize out = Some out.
Proof.
  intros Hs HN Hdiff Hout. rewrite pc_normalize_eq in Hout.
  destruct (mean_axis0_spec N C pc Hs HN) as [Hclen _].
  pose proof (centred_shape N C pc _ Hs Hclen) as Hq.
  set (q := map (fun row => zip_with Rminus row (Np.mean_axis0 pc)) pc) in *.
  destruct (Np.amax (map sqrt (map (fun row => Np.sum (map (fun x => x ^ 2) row)) q)))
    as [m|] eqn:Em; [|discriminate].
  assert (Hm : 0 < m) by (eapply (max_norm_pos N C pc); eauto).
  cbn [bind] in Hout. injection Hout as <-.
  pose proof (shape2_map_map N C (fun x => x / m) q Hq) as Hsh.
  rewrite pc_normalize_eq.
  unfold q at 1 3. rewrite (normalized_mean_zero N C pc m Hs HN) by lra.
  fold q.
  assert (Hid : map (fun row => zip_with Rminus row (repeat 0 C))
                    (map (map (fun x => x / m)) q)
                = map (map (fun x => x / m)) q).
  { rewrite <- (map_id (map (map (fun x => x / m)) q)) at 2.
    apply map_ext_in. intros row Hin. apply zip_minus_zeros.
    exact (shape2_row N C _ row Hsh Hin). }
  rewrite Hid, (normalized_norms q m Hm).
  destruct (map sqrt (map (fun row => Np.sum (map (fun x => x ^ 2) row)) q))
    as [|n0 ns]; [discriminate|].
  cbn [Np.amax] in Em. injection Em as Em.
  cbn [map Np.amax]. rewrite (fold_Rmax_scaled m ns n0 Hm), Em.
  replace (m / m) with 1 by (field; lra).
  cbn [bind]. f_equal.
  rewrite <- (map_id (map (map (fun x => x / m)) q)) at 2.
  apply map_ext. intros row.
  rewrite <- (map_id row) at 2. apply map_ext. intros x. field.
Qed.

(** X7.  Normalising twice is normalising once: a normalised cloud is left as
    it is by [pc_normalize]. *)
Theorem pc_normalize_idempotent (pc out : array2) (N C : nat) :
  shape2 N C pc ->
  (1 <= N)%nat ->
  (exists p q, In p pc /\ In q pc /\ p <> q) ->
  pc_normalize pc = Some out ->
  pc_normalize out = Some out.
Proof. apply pc_normalize_again. Qed.

Lemma pc_normalize_idempotent_witness :
  shape2 2 3 Samples.two_points
  /\ (1 <= 2)%nat
  /\ (exists p q, In p Samples.two_points /\ In q Samples.two_points /\ p <> q)
  /\ pc_normalize Samples.two_points = Some [[-1; 0; 0]; [1; 0; 0]]
  /\ pc_normalize [[-1; 0; 0]; [1; 0; 0]] = Some [[-1; 0; 0]; [1; 0; 0]].
Proof.
  assert (Hs : shape2 2 3 Samples.two_points).
  { split; [reflexivity|]. repeat constructor. }
  assert (HN : (1 <= 2)%nat) by lia.
  assert (Hd : exists p q,
             In p Samples.two_points /\ In q Samples.two_points /\ p <> q).
  { exists [0; 0; 0], [2; 0; 0]. split; [left; reflexivity|].
    split; [right; left; reflexivity|].
    intros E. injection E as E. lra. }
  split; [exact Hs|]. split; [exact HN|]. split; [exact Hd|].
  split; [exact pc_normalize_two_points|].
  exact (pc_normalize_idempotent Samples.two_points _ 2 3 Hs HN Hd
           pc_normalize_two_points).
Defined.

Lemma shifted_shape N C pc t :
  shape2 N C pc -> length t = C ->
  shape2 N C (map (fun row => zip_with Rplus row t) pc).
Proof.
  intros [Hl Hr] Ht. split.
  - rewrite length_map. exact Hl.
  - apply Forall_map. eapply Forall_impl; [|exact Hr].
    intros row Hrow. simpl. rewrite zip_with_length, Hrow, Ht. apply Nat.min_id.
Qed.

(** Moving a cloud moves its centroid along, so the centred cloud is the
    same. *)
Lemma centred_shifted N C pc t :
  shape2 N C pc -> length t = C ->
  map (fun row =>
         zip_with Rminus row
           (Np.mean_axis0 (map (fun row => zip_with Rplus row t) pc)))
      (map (fun row => zip_with Rplus row t) pc)
  = map (fun row => zip_with Rminus row (Np.mean_axis0 pc)) pc.
Proof.
  intros Hs Ht.
  destruct (Nat.eq_dec N 0) as [->|HN0].
  { destruct Hs as [Hl _]. destruct pc; [reflexivity | discriminate]. }
  assert (HN : (1 <= N)%nat) by lia.
  pose proof (shifted_shape N C pc t Hs Ht) as Hs'.
  destruct (mean_axis0_spec N C pc Hs HN) as [Hclen Hc].
  destruct (mean_axis0_spec N C _ Hs' HN) as [Hclen' Hc'].
  rewrite map_map. apply map_ext_in. intros row Hin.
  assert (Hrow : length row = C) by exact (shape2_row N C pc row Hs Hin).
  apply (nth_ext _ _ 0 0).
  - rewrite !zip_with_length, Hrow, Ht, Hclen, Hclen', !Nat.min_id. reflexivity.
  - intros j Hj.
    rewrite !zip_with_length, Hrow, Ht, Hclen', !Nat.min_id in Hj.
    rewrite !nth_zip_with
      by (rewrite ?zip_with_length, ?Hrow, ?Ht, ?Hclen, ?Hclen', ?Nat.min_id; exact Hj).
    rewrite (Hc j Hj), (Hc' j Hj), map_map.
    rewrite (map_ext_in _ (fun row => nth j row 0 + nth j t 0)).
    + rewrite sum_shifted. destruct Hs as [Hl _]. rewrite Hl.
      assert (INR N <> 0) by (apply not_0_INR; lia).
      field. assumption.
    + intros row' Hin'.
      assert (Hrow' : length row' = C) by exact (shape2_row N C pc row' Hs Hin').
      apply nth_zip_with; lia.
Qed.

(** X8.  In exact arithmetic, [pc_normalize] does not see where a cloud
    sits: on an NxC cloud with at least one point and two points that
    differ, it returns the same cloud before and after the same vector is
    added to every point. *)
Theorem pc_normalize_translation_invariant (pc : array2) (t : array1)
    (N C : nat) :
  shape2 N C pc ->
  (1 <= N)%nat ->
  (exists p q, In p pc /\ In q pc /\ p <> q) ->
  length t = C ->
  exists out,
    pc_normalize pc = Some out
    /\ pc_normalize (map (fun row => zip_with Rplus row t) pc) = Some out.
Proof.
  intros Hs HN _ Ht.
  assert (E : pc_normalize (map (fun row => zip_with Rplus row t) pc)
              = pc_normalize pc).
  { rewrite !pc_normalize_eq.
    rewrite (centred_shifted N C pc t Hs Ht). reflexivity. }
  rewrite E, pc_normalize_eq.
  destruct pc as [|r rs]; [destruct Hs as [Hl _]; simpl in Hl; lia|].
  cbn [map Np.amax bind]. eexists. split; reflexivity.
Qed.

Lemma pc_normalize_translation_invariant_witness :
  shape2 3 3 Samples.three_points
  /\ (1 <= 3)%nat
  /\ (exists p q, In p Samples.three_points /\ In q Samples.three_points
                  /\ p <> q)
  /\ length [10; -4; 0.5] = 3%nat
  /\ exists out,
       pc_normalize Samples.three_points = Some out
       /\ pc_normalize (map (fun row => zip_with Rplus row [10; -4; 0.5])
                          Samples.three_points)
          = Some out.
Proof.
  assert (Hs : shape2 3 3 Samples.three_points).
  { split; [reflexivity|]. repeat constructor. }
  assert (HN : (1 <= 3)%nat) by lia.
  assert (Hd : exists p q, In p Samples.three_points
                           /\ In q Samples.three_points /\ p <> q).
  { exists [1; 2; 3], [4; 5; 6]. split; [left; reflexivity|].
    split; [right; left; reflexivity|].
    intros E. injection E as E _ _. lra. }
  assert (Ht : length [10; -4; 0.5] = 3%nat) by reflexivity.
  split; [exact Hs|]. split; [exact HN|]. split; [exact Hd|].
  split; [exact Ht|].
  exact (pc_normalize_translation_invariant Samples.three_points [10; -4; 0.5]
           3 3 Hs HN Hd Ht).
Defined.

Lemma fold_Rmax_times s r x :
  0 <= s ->
  fold_left Rmax (map (fun y => s * y) r) (s * x) = s * fold_left Rmax r x.
Proof.
  intros Hs. revert x; induction r as [|y r IH]; intros x; simpl.
  - reflexivity.
  - rewrite <- IH. f_equal. apply RmaxRmult. exact Hs.
Qed.

Lemma sum_squares_times s l :
  Np.sum (map (fun x => x ^ 2) (map (fun x => s * x) l))
  = s ^ 2 * Np.sum (map (fun x => x ^ 2) l).
Proof.
  induction l as [|x r IH]; cbn [map].
  - rewrite sum_nil. ring.
  - rewrite !sum_cons, IH. ring.
Qed.

(** Scaling a cloud scales its centred cloud. *)
Lemma centred_scaled N C pc s :
  shape2 N C pc -> (1 <= N)%nat ->
  map (fun row =>
         zip_with Rminus row (Np.mean_axis0 (map (map (fun x => s * x)) pc)))
      (map (map (fun x => s * x)) pc)
  = map (map (fun x => s * x))
      (map (fun row => zip_with Rminus row (Np.mean_axis0 pc)) pc).
Proof.
  intros Hs HN.
  pose proof (shape2_map_map N C (fun x => s * x) pc Hs) as Hs'.
  destruct (mean_axis0_spec N C pc Hs HN) as [Hclen Hc].
  destruct (mean_axis0_spec N C _ Hs' HN) as [Hclen' Hc'].
  rewrite !map_map. apply map_ext_in. intros row Hin.
  assert (Hrow : length row = C) by exact (shape2_row N C pc row Hs Hin).
  apply (nth_ext _ _ 0 0).
  - rewrite length_map, !zip_with_length, length_map, Hrow, Hclen, Hclen'.
    reflexivity.
  - intros j Hj.
    rewrite zip_with_length, length_map, Hrow, Hclen', Nat.min_id in Hj.
    rewrite nth_zip_with by (rewrite ?length_map, ?Hrow, ?Hclen'; exact Hj).
    rewrite (nth_map_lt _ row j 0 0) by (rewrite Hrow; exact Hj).
    rewrite (nth_map_lt _ _ j 0 0)
      by (rewrite zip_with_length, Hrow, Hclen, Nat.min_id; exact Hj).
    rewrite nth_zip_with by lia.
    rewrite (Hc j Hj), (Hc' j Hj), map_map.
    rewrite (map_ext_in _ (fun row => s * nth j row 0)).
    + rewrite sum_scaled.
      assert (INR N <> 0) by (apply not_0_INR; lia).
      field. assumption.
    + intros row' Hin'.
      assert (Hrow' : length row' = C) by exact (shape2_row N C pc row' Hs Hin').
      apply (nth_map_lt _ row' j 0 0). lia.
Qed.

(** X9.  [pc_normalize] does not see the size of a cloud: multiplying every
    coordinate by the same positive number changes nothing in the result. *)
Theorem pc_normalize_scale_invariant (pc : array2) (s : R) (N C : nat) :
  shape2 N C pc ->
  (1 <= N)%nat ->
  (exists p q, In p pc /\ In q pc /\ p <> q) ->
  0 < s ->
  pc_normalize (map (map (fun x => s * x)) pc) = pc_normalize pc.
Proof.
  intros Hs HN Hdiff Hpos. rewrite !pc_normalize_eq.
  rewrite (centred_scaled N C pc s Hs HN).
  destruct (mean_axis0_spec N C pc Hs HN) as [Hclen _].
  set (q := map (fun row => zip_with Rminus row (Np.mean_axis0 pc)) pc).
  assert (Hnorms :
    map sqrt (map (fun row => Np.sum (map (fun x => x ^ 2) row))
                (map (map (fun x => s * x)) q))
    = map (fun y => s * y)
        (map sqrt (map (fun row => Np.sum (map (fun x => x ^ 2) row)) q))).
  { rewrite !map_map. apply map_ext. intros row.
    rewrite sum_squares_times.
    rewrite sqrt_mult by (try apply pow2_ge_0; apply sum_squares_nonneg).
    rewrite sqrt_pow2 by lra. reflexivity. }
  rewrite Hnorms.
  destruct (map sqrt (map (fun row => Np.sum (map (fun x => x ^ 2) row)) q))
    as [|n0 ns] eqn:El; [reflexivity|].
  assert (Hm : 0 < fold_left Rmax ns n0).
  { apply (max_norm_pos N C pc (Np.mean_axis0 pc) _ Hs Hclen Hdiff).
    fold q. rewrite El. reflexivity. }
  cbn [map Np.amax]. rewrite (fold_Rmax_times s ns n0) by lra.
  cbn [bind]. f_equal. rewrite map_map. apply map_ext. intros row.
  rewrite map_map. apply map_ext. intros x. field. split; lra.
Qed.

Lemma pc_normalize_scale_invariant_witness :
  shape2 2 3 Samples.two_points
  /\ (1 <= 2)%nat
  /\ (exists p q, In p Samples.two_points /\ In q Samples.two_points /\ p <> q)
  /\ 0 < 5
  /\ pc_normalize (map (map (fun x => 5 * x)) Samples.two_points)
     = pc_normalize Samples.two_points.
Proof.
  assert (Hs : shape2 2 3 Samples.two_points).
  { split; [reflexivity|]. repeat constructor. }
  assert (HN : (1 <= 2)%nat) by lia.
  assert (Hd : exists p q,
             In p Samples.two_points /\ In q Samples.two_points /\ p <> q).
  { exists [0; 0; 0], [2; 0; 0]. split; [left; reflexivity|].
    split; [right; left; reflexivity|].
    intros E. injection E as E. lra. }
  assert (Hp : 0 < 5) by lra.
  split; [exact Hs|]. split; [exact HN|]. split; [exact Hd|]. split; [exact Hp|].
  exact (pc_normalize_scale_invariant Samples.two_points 5 2 3 Hs HN Hd Hp).
Defined.

(** ** The augmentation pipeline of Objverse and ShapeNet *)

(** A cloud with at least one point is normalised without an error, and
    keeps its shape. *)
Lemma pc_normalize_shape N C pc :
  shape2 N C pc -> (1 <= N)%nat ->
  exists out, pc_normalize pc = Some out /\ shape2 N C out.
Proof.
  intros Hs HN. rewrite pc_normalize_eq.
  destruct (mean_axis0_spec N C pc Hs HN) as [Hclen _].
  pose proof (centred_shape N C pc _ Hs Hclen) as Hq.
  destruct pc as [|r rs]; [destruct Hs as [Hl _]; simpl in Hl; lia|].
  cbn [map Np.amax bind]. eexists. split; [reflexivity|].
  apply (shape2_map_map N C _ _ Hq).
Qed.

Lemma dropout_cloud_shape_any N C random_b ratio cloud :
  shape2 N C cloud ->
  shape2 N C
    (let drop_idx :=
       filter (fun i => Rleb (random_b i) ratio) (seq 0 (length cloud)) in
     if (0 <? length drop_idx)%nat
     then mapi (fun i p =>
                  if existsb (Nat.eqb i) drop_idx then nth 0 cloud [] else p)
               cloud
     else cloud).
Proof.
  intros Hs. cbv zeta.
  destruct (0 <? _)%nat; [|exact Hs].
  destruct Hs as [Hl Hr]. split.
  - rewrite mapi_length; exact Hl.
  - destruct cloud as [|first rest]; [constructor|].
    eapply Forall_mapi; [|exact Hr].
    intros k p Hp. simpl in Hp. simpl nth.
    destruct (existsb _ _); [|exact Hp].
    inversion Hr; assumption.
Qed.

Lemma bind_None {A B : Type} (m : option A) (k : A -> option B) :
  m = None -> bind m k = None.
Proof. intros ->. reflexivity. Qed.

(** A cloud whose points do not have three coordinates stops
    [shift_point_cloud]. *)
Lemma shift_point_cloud_wrong_width uniform range N C cloud :
  shape2 N C cloud -> (1 <= N)%nat -> C <> 3%nat ->
  shift_point_cloud uniform range [cloud] = None.
Proof.
  intros [Hl Hr] HN HC. unfold shift_point_cloud.
  destruct cloud as [|row rest]; [simpl in Hl; lia|].
  inversion Hr as [|? ? Hrow _]; subst.
  cbn [mapi mapi_from forallb].
  assert (E : (length row =? 3)%nat = false) by (apply Nat.eqb_neq; exact HC).
  rewrite E. reflexivity.
Qed.

(** X10.  On a cloud of [N >= 1] points with three coordinates the pipeline of
    [__getitem__] (normalisation, then the five augmentations) runs without
    an error in both adapters, gives the same value in both, and hands a
    batch of shape 1xNx3 to [squeeze]. *)
Theorem getitem_pc_shape (d : draws) (pc : array2) (N : nat) :
  shape2 N 3 pc ->
  (1 <= N)%nat ->
  exists out,
    Objverse.getitem_pc d true pc = Some out
    /\ ShapeNet.getitem_pc d true pc = Some out
    /\ shape3 1 N 3 out.
Proof.
  intros Hs HN.
  assert (H : exists out, Objverse.getitem_pc d true pc = Some out
                          /\ shape3 1 N 3 out).
  { unfold Objverse.getitem_pc, Objverse.augment_chain.
    change (Objverse.pc_norm pc) with (pc_normalize pc).
    destruct (pc_normalize_shape N 3 pc Hs HN) as (n & -> & Hn).
    cbn [bind run_chain call].
    assert (H0 : shape3 1 N 3 [n])
      by (split; [reflexivity | constructor; [exact Hn | constructor]]).
    pose proof (random_point_dropout_shape (dropout_random d) (dropout_random_n d)
                  0.875 1 N [n] H0) as H1.
    pose proof (random_scale_point_cloud_shape (scale_uniform d) 0.8 1.25 1 N _ H1)
      as H2.
    destruct (shift_point_cloud_shape (shift_uniform d) 0.1 1 N _ H2)
      as (s & -> & H3).
    cbn [bind].
    destruct (rotate_perturbation_point_cloud_shape (perturbation_randn d)
                0.06 0.18 1 N s H3) as (p & -> & H4).
    cbn [bind].
    pose proof (rotate_point_cloud_eq (rotate_uniform d) 1 N p H4) as H5.
    cbv zeta in H5. destruct H5 as [-> H5].
    eexists. split; [reflexivity | exact H5]. }
  destruct H as (out & Ho & Hsh). exists out.
  split; [exact Ho|]. split; [exact Ho | exact Hsh].
Qed.

Lemma getitem_pc_shape_witness :
  shape2 3 3 Samples.three_points
  /\ (1 <= 3)%nat
  /\ exists out,
       Objverse.getitem_pc (Samples.constant_draws 0.5 1) true Samples.three_points
       = Some out
       /\ ShapeNet.getitem_pc (Samples.constant_draws 0.5 1) true
            Samples.three_points = Some out
       /\ shape3 1 3 3 out.
Proof.
  assert (Hs : shape2 3 3 Samples.three_points).
  { split; [reflexivity|]. repeat constructor. }
  assert (HN : (1 <= 3)%nat) by lia.
  split; [exact Hs|]. split; [exact HN|].
  exact (getitem_pc_shape (Samples.constant_draws 0.5 1) Samples.three_points 3
           Hs HN).
Defined.

(** X11.  The pipeline raises on an empty cloud (in the normalisation) and on a
    cloud whose points carry more or fewer than three coordinates (in
    [shift_point_cloud]), in both adapters. *)
Theorem getitem_pc_raises (d : draws) (pc : array2) (N C : nat) :
  shape2 N C pc ->
  (1 <= N)%nat ->
  C <> 3%nat ->
  Objverse.getitem_pc d true [] = None
  /\ ShapeNet.getitem_pc d true [] = None
  /\ Objverse.getitem_pc d true pc = None
  /\ ShapeNet.getitem_pc d true pc = None.
Proof.
  intros Hs HN HC.
  split; [reflexivity|]. split; [reflexivity|].
  assert (H : Objverse.getitem_pc d true pc = None).
  { unfold Objverse.getitem_pc, Objverse.augment_chain.
    change (Objverse.pc_norm pc) with (pc_normalize pc).
    destruct (pc_normalize_shape N C pc Hs HN) as (n & -> & Hn).
    cbn [bind run_chain call].
    unfold random_point_dropout, random_scale_point_cloud.
    cbn [mapi mapi_from].
    apply bind_None.
    apply (shift_point_cloud_wrong_width _ _ N C).
    + apply shape2_map_map.
      apply (dropout_cloud_shape_any N C (dropout_random_n d 0%nat) _ n Hn).
    + exact HN.
    + exact HC. }
  split; exact H.
Qed.

Lemma getitem_pc_raises_witness :
  shape2 2 6 Samples.cached_cloud
  /\ (1 <= 2)%nat
  /\ 6%nat <> 3%nat
  /\ Objverse.getitem_pc (Samples.constant_draws 0.5 1) true [] = None
  /\ ShapeNet.getitem_pc (Samples.constant_draws 0.5 1) true [] = None
  /\ Objverse.getitem_pc (Samples.constant_draws 0.5 1) true Samples.cached_cloud
     = None
  /\ ShapeNet.getitem_pc (Samples.constant_draws 0.5 1) true Samples.cached_cloud
     = None.
Proof.
  assert (Hs : shape2 2 6 Samples.cached_cloud).
  { split; [reflexivity|]. repeat constructor. }
  assert (HN : (1 <= 2)%nat) by lia.
  assert (HC : 6%nat <> 3%nat) by discriminate.
  split; [exact Hs|]. split; [exact HN|]. split; [exact HC|].
  exact (getitem_pc_raises (Samples.constant_draws 0.5 1) Samples.cached_cloud 2 6
           Hs HN HC).
Defined.

(** ** Farthest-point sampling: no point is sampled twice *)

Lemma argmax_from_max pre l best_i best i :
  length pre = i -> (best_i < i)%nat ->
  nth best_i (pre ++ l) 0 = best ->
  (forall j, (j < i)%nat -> nth j (pre ++ l) 0 <= best) ->
  forall j, (j < length (pre ++ l))%nat ->
    nth j (pre ++ l) 0 <= nth (Np.argmax_from best_i best i l) (pre ++ l) 0.
Proof.
  revert pre best_i best i; induction l as [|x r IH];
    intros pre best_i best i Hpre Hbi Hb Hmax j Hj.
  - simpl. rewrite Hb. apply Hmax. rewrite app_nil_r in Hj. lia.
  - simpl Np.argmax_from.
    assert (Hx : nth i (pre ++ x :: r) 0 = x).
    { rewrite app_nth2 by lia. rewrite Hpre, Nat.sub_diag. reflexivity. }
    assert (Happ : pre ++ x :: r = (pre ++ [x]) ++ r)
      by (rewrite <- app_assoc; reflexivity).
    unfold Rltb. destruct (Rlt_dec best x) as [Hlt|Hge]; rewrite Happ.
    + apply (IH (pre ++ [x]) i x (S i)).
      * rewrite length_app, Hpre. simpl. lia.
      * lia.
      * rewrite <- Happ. exact Hx.
      * intros j' Hj'. rewrite <- Happ.
        destruct (Nat.eq_dec j' i) as [->|Hne]; [rewrite Hx; lra|].
        specialize (Hmax j' ltac:(lia)). lra.
      * rewrite <- Happ. exact Hj.
    + apply (IH (pre ++ [x]) best_i best (S i)).
      * rewrite length_app, Hpre. simpl. lia.
      * lia.
      * rewrite <- Happ. exact Hb.
      * intros j' Hj'. rewrite <- Happ.
        destruct (Nat.eq_dec j' i) as [->|Hne]; [rewrite Hx; lra|].
        apply Hmax. lia.
      * rewrite <- Happ. exact Hj.
Qed.

(** [np.argmax] returns a position that holds the maximum. *)
Lemma argmax_max l :
  l <> [] ->
  exists i, Np.argmax l = Some i /\ (i < length l)%nat
            /\ forall j, (j < length l)%nat -> nth j l 0 <= nth i l 0.
Proof.
  intros Hne. destruct (argmax_bound l Hne) as (i & Hi & Hlt).
  exists i. split; [exact Hi|]. split; [exact Hlt|].
  destruct l as [|x r]; [congruence|]. simpl in Hi. injection Hi as <-.
  apply (argmax_from_max [x] r 0 x 1); simpl; try lia; try reflexivity.
  intros j Hj. replace j with 0%nat by lia. simpl. lra.
Qed.

Lemma sqdist_nonneg p c :
  0 <= Np.sum (map (fun x => x ^ 2) (zip_with Rminus p c)).
Proof. apply sum_squares_nonneg. Qed.

Lemma sqdist_self p : Np.sum (map (fun x => x ^ 2) (zip_with Rminus p p)) = 0.
Proof.
  induction p as [|a r IH]; cbn [zip_with map].
  - apply sum_nil.
  - rewrite sum_cons, IH. ring.
Qed.

Lemma sqdist_zero p c :
  length p = length c ->
  Np.sum (map (fun x => x ^ 2) (zip_with Rminus p c)) = 0 -> p = c.
Proof.
  intros Hl H. apply zip_minus_zero; [exact Hl|].
  apply sum_squares_zero. exact H.
Qed.

Section SamplingWithoutRepetition.

Variable xyz : array2.
Variable width : nat.
Hypothesis xyz_rows : Forall (fun row => length row = width) xyz.
Hypothesis xyz_distinct : NoDup xyz.

(** One pass of the loop: the distances after the pass. *)
Lemma fps_distance_update distance farthest i :
  length distance = length xyz ->
  (i < length xyz)%nat ->
  nth i
    (zip_with (fun d old => if Rltb d old then d else old)
       (map (fun p =>
               Np.sum (map (fun x => x ^ 2)
                         (zip_with Rminus p (nth farthest xyz []))))
            xyz)
       distance) 0
  = (let d := Np.sum (map (fun x => x ^ 2)
                        (zip_with Rminus (nth i xyz []) (nth farthest xyz []))) in
     if Rltb d (nth i distance 0) then d else nth i distance 0).
Proof.
  intros Hd Hi. rewrite nth_zip_with by (rewrite ?length_map; lia).
  rewrite (nth_map_lt _ xyz i 0 []) by exact Hi. reflexivity.
Qed.

(** The loop from a state in which the distances are those to the points
    recorded so far: it records a point not recorded before in every pass
    for which an unrecorded point is left. *)
Lemma fps_loop_distinct iters :
  forall centroids distance farthest,
    length distance = length xyz ->
    (farthest < length xyz)%nat ->
    (forall i, (i < length xyz)%nat -> 0 <= nth i distance 0) ->
    (forall i, (i < length xyz)%nat -> nth i distance 0 = 0 -> In i centroids) ->
    (forall c, In c centroids -> (c < length xyz)%nat /\ nth c distance 0 = 0) ->
    NoDup centroids ->
    ((1 <= iters)%nat -> ~ In farthest centroids) ->
    (length centroids + iters <= length xyz)%nat ->
    exists written,
      fps_loop xyz iters centroids distance farthest = Some (centroids ++ written)
      /\ length written = iters
      /\ NoDup (centroids ++ written)
      /\ Forall (fun i => (i < length xyz)%nat) written.
Proof.
  induction iters as [|iters IH];
    intros centroids distance farthest Hd Hf Hpos Hzero Hcs Hnd Hnew Hroom.
  - exists []. simpl. rewrite app_nil_r. repeat split; [exact Hnd | constructor].
  - simpl fps_loop.
    rewrite (nth_error_nth' xyz [] Hf). cbn [bind].
    set (distance' := zip_with _ _ distance).
    assert (Hd' : length distance' = length xyz).
    { subst distance'. rewrite zip_with_length, length_map, Hd. lia. }
    assert (Hval : forall i, (i < length xyz)%nat ->
              nth i distance' 0
              = (let d := Np.sum (map (fun x => x ^ 2)
                                    (zip_with Rminus (nth i xyz [])
                                       (nth farthest xyz []))) in
                 if Rltb d (nth i distance 0) then d else nth i distance 0)).
    { intros i Hi. apply fps_distance_update; assumption. }
    assert (Hpos' : forall i, (i < length xyz)%nat -> 0 <= nth i distance' 0).
    { intros i Hi. rewrite (Hval i Hi). cbv zeta.
      destruct (Rltb _ _); [apply sqdist_nonneg | apply Hpos; exact Hi]. }
    assert (Hlen : forall i, (i < length xyz)%nat -> length (nth i xyz []) = width).
    { intros i Hi. rewrite Forall_forall in xyz_rows. apply xyz_rows.
      apply nth_In. exact Hi. }
    assert (Hzero' : forall i, (i < length xyz)%nat -> nth i distance' 0 = 0 ->
                               In i (centroids ++ [farthest])).
    { intros i Hi Hz. rewrite (Hval i Hi) in Hz. cbv zeta in Hz.
      apply in_or_app. unfold Rltb in Hz.
      destruct (Rlt_dec _ _) as [Hlt|Hge].
      - right. left.
        apply sqdist_zero in Hz; [|rewrite !Hlen by assumption; reflexivity].
        symmetry. apply (proj1 (NoDup_nth xyz []) xyz_distinct); assumption.
      - left. apply Hzero; assumption. }
    assert (Hcs' : forall c, In c (centroids ++ [farthest]) ->
                             (c < length xyz)%nat /\ nth c distance' 0 = 0).
    { intros c Hc. apply in_app_or in Hc. destruct Hc as [Hc|[<-|[]]].
      - destruct (Hcs c Hc) as [Hlt Hz]. split; [exact Hlt|].
        rewrite (Hval c Hlt). cbv zeta. rewrite Hz. unfold Rltb.
        destruct (Rlt_dec _ 0) as [Hneg|_]; [|reflexivity].
        pose proof (sqdist_nonneg (nth c xyz []) (nth farthest xyz [])). lra.
      - split; [exact Hf|]. rewrite (Hval farthest Hf). cbv zeta.
        rewrite sqdist_self. unfold Rltb.
        destruct (Rlt_dec 0 _) as [_|Hge]; [reflexivity|].
        pose proof (Hpos farthest Hf). lra. }
    assert (Hnd' : NoDup (centroids ++ [farthest])).
    { apply NoDup_app; [exact Hnd | repeat constructor; intros [] |].
      intros c Hc [<-|[]]. apply Hnew; [lia | exact Hc]. }
    destruct (argmax_max distance') as (f' & Ef & Hf' & Hmax).
    { intros E. rewrite E in Hd'. simpl in Hd'. lia. }
    rewrite Ef. cbn [bind]. rewrite Hd' in Hf'.
    destruct (IH (centroids ++ [farthest]) distance' f') as (w & Hw & Hwl & Hwn & Hwa);
      try assumption.
    + intros Hit Hin.
      destruct (Hcs' f' Hin) as [_ Hz].
      assert (Hall : incl (seq 0 (length xyz)) (centroids ++ [farthest])).
      { intros i Hi. apply in_seq in Hi. apply Hzero'; [lia|].
        pose proof (Hmax i ltac:(rewrite Hd'; lia)) as Hle.
        pose proof (Hpos' i ltac:(lia)). lra. }
      pose proof (NoDup_incl_length (seq_NoDup (length xyz) 0) Hall) as Hcount.
      rewrite length_seq, length_app in Hcount. simpl in Hcount. lia.
    + rewrite length_app. simpl. lia.
    + exists (farthest :: w). rewrite Hw, <- app_assoc. simpl.
      rewrite <- app_assoc in Hwn. simpl in Hwn.
      repeat split; [f_equal; exact Hwl | exact Hwn | constructor; assumption].
Qed.

End SamplingWithoutRepetition.

(** X12.  In exact arithmetic, on points with pairwise distinct positions,
    sampling at most as many points as there are never returns a point
    twice; sampling exactly as many returns every point once.  (In the code
    the squared distance of two distinct points can round or underflow to
    0, and then a point can come twice.) *)
Theorem farthest_point_sample_distinct (randint : nat) (point : array2)
    (npoint N D : nat) :
  shape2 N D point ->
  NoDup (map (firstn 3) point) ->
  (randint < N)%nat ->
  (npoint <= N)%nat ->
  exists out,
    farthest_point_sample randint point npoint = Some out
    /\ length out = npoint
    /\ NoDup out
    /\ incl out point
    /\ (npoint = N -> Permutation out point).
Proof.
  intros [HN Hrows] Hdistinct Hr Hn. unfold farthest_point_sample.
  destruct (Nat.eqb_spec (length point) 0) as [E|_]; [lia|].
  destruct (fps_loop_distinct (map (firstn 3) point) (Nat.min 3 D)) with
      (iters := npoint) (centroids := @nil nat)
      (distance := map (fun one => one * 1e10) (repeat 1 (length point)))
      (farthest := randint)
    as (cs & Hcs & Hlen & Hnd & Hall).
  - apply Forall_map. eapply Forall_impl; [|exact Hrows].
    intros row Hrow. cbv beta. rewrite length_firstn, Hrow. reflexivity.
  - exact Hdistinct.
  - rewrite !length_map, repeat_length. reflexivity.
  - rewrite length_map. lia.
  - intros i Hi. rewrite length_map in Hi.
    rewrite (nth_map_lt _ _ i 0 1) by (rewrite repeat_length; exact Hi).
    rewrite nth_repeat. lra.
  - intros i Hi Hz. exfalso. rewrite length_map in Hi.
    rewrite (nth_map_lt _ _ i 0 1) in Hz by (rewrite repeat_length; exact Hi).
    rewrite nth_repeat in Hz. lra.
  - intros c [].
  - constructor.
  - intros _ [].
  - rewrite length_map. simpl. lia.
  - rewrite Hcs. cbn [bind app]. simpl in Hnd. rewrite length_map in Hall.
    destruct (mapM_total (nth_error point) cs) as [out Hout].
    { eapply Forall_impl; [|exact Hall]. intros i Hi. simpl in Hi.
      destruct (nth_error point i) as [p|] eqn:Ep; [eexists; reflexivity|].
      apply nth_error_None in Ep. lia. }
    assert (Hpoint : NoDup point) by (eapply NoDup_map_inv; exact Hdistinct).
    assert (Hlo : length out = npoint).
    { rewrite (mapM_length _ _ _ Hout). exact Hlen. }
    assert (Hndo : NoDup out).
    { apply NoDup_nth_error. intros i j Hi Hij.
      rewrite (mapM_nth_error _ _ _ i Hout), (mapM_nth_error _ _ _ j Hout) in Hij.
      assert (Hi' : (i < length cs)%nat) by (rewrite Hlen, <- Hlo; exact Hi).
      destruct (nth_error cs i) as [ci|] eqn:Eci;
        [|apply nth_error_None in Eci; lia].
      cbn [bind] in Hij.
      assert (Hci : (ci < length point)%nat).
      { rewrite Forall_forall in Hall. apply Hall. eapply nth_error_In; eauto. }
      destruct (nth_error cs j) as [cj|] eqn:Ecj.
      - cbn [bind] in Hij.
        assert (ci = cj).
        { apply (proj1 (NoDup_nth_error point) Hpoint ci cj Hci Hij). }
        subst cj.
        apply (proj1 (NoDup_nth_error cs) Hnd i j Hi'). congruence.
      - cbn [bind] in Hij. apply nth_error_None in Hij. lia. }
    assert (Hincl : incl out point).
    { intros q Hq. apply In_nth_error in Hq. destruct Hq as [k Hk].
      rewrite (mapM_nth_error _ _ _ k Hout) in Hk.
      destruct (nth_error cs k); simpl in Hk; [|discriminate].
      eapply nth_error_In; eauto. }
    exists out. rewrite Hout.
    repeat split; try assumption.
    intros ->. apply NoDup_Permutation_bis; try assumption. lia.
Qed.

Lemma farthest_point_sample_distinct_witness :
  shape2 3 3 Samples.three_points
  /\ NoDup (map (firstn 3) Samples.three_points)
  /\ (1 < 3)%nat
  /\ (3 <= 3)%nat
  /\ exists out,
       farthest_point_sample 1 Samples.three_points 3 = Some out
       /\ length out = 3%nat
       /\ NoDup out
       /\ incl out Samples.three_points
       /\ (3%nat = 3%nat -> Permutation out Samples.three_points).
Proof.
  assert (Hs : shape2 3 3 Samples.three_points).
  { split; [reflexivity|]. repeat constructor. }
  assert (Hd : NoDup (map (firstn 3) Samples.three_points)).
  { simpl. repeat constructor; simpl;
      intros H; repeat (destruct H as [H|H]; [injection H as H; lra|]); exact H. }
  assert (Hr : (1 < 3)%nat) by lia.
  assert (Hn : (3 <= 3)%nat) by lia.
  split; [exact Hs|]. split; [exact Hd|]. split; [exact Hr|]. split; [exact Hn|].
  exact (farthest_point_sample_distinct 1 Samples.three_points 3 3 3 Hs Hd Hr Hn).
Defined.

(** ** ModelNet: what retrieval does to the cache *)

Lemma nth_error_setitem_ne {A : Type} (l : list A) p q v :
  p <> q -> nth_error (setitem l p v) q = nth_error l q.
Proof.
  revert p q; induction l as [|a r IH]; intros [|p] [|q] H; simpl;
    try reflexivity; try congruence.
  apply IH. congruence.
Qed.

(** The last steps of [_get_item], from the choice on [use_height] on,
    change no field but [gravity_dim]. *)
Ltac get_item_tail H :=
  match type of H with
  | context [ModelNet.use_height ?s] =>
      destruct (ModelNet.use_height s);
      [ destruct (Np.amin _); [|discriminate H] | ];
      cbn [bind] in H;
      (destruct (nth_error _ 0); [|discriminate H]);
      cbn [bind] in H; injection H as _ <-
  end.

(** X13.  Retrieval of one index leaves the labels and the cached arrays of all
    other indices alone, and leaves the whole cache alone when it works on an
    array of its own: when the clouds are read from the files, or when fewer
    points are asked for than the cached cloud holds. *)
Theorem get_item_frame (self self' : ModelNet.t) (d : ModelNet.draws)
    (index : Z) (r : array2 * Z) :
  ModelNet._get_item self d index = Some (r, self') ->
  ModelNet.list_of_labels self' = ModelNet.list_of_labels self
  /\ length (ModelNet.list_of_points self') = length (ModelNet.list_of_points self)
  /\ (forall q,
        resolve_index (length (ModelNet.list_of_points self)) index <> Some q ->
        nth_error (ModelNet.list_of_points self') q
        = nth_error (ModelNet.list_of_points self) q)
  /\ (ModelNet.process_data self = false
      \/ (exists p v,
            resolve_index (length (ModelNet.list_of_points self)) index = Some p
            /\ nth_error (ModelNet.list_of_points self) p = Some v
            /\ (ModelNet.npoints self < length v)%nat) ->
      ModelNet.list_of_points self' = ModelNet.list_of_points self).
Proof.
  intros H. unfold ModelNet._get_item in H.
  destruct (ModelNet.process_data self) eqn:Epd.
  - destruct (resolve_index _ index) as [p|] eqn:Er; [|discriminate H].
    cbn [bind] in H.
    destruct (getitem (ModelNet.list_of_labels self) index) as [label|];
      [|discriminate H].
    cbn [bind ModelNet.deref] in H.
    destruct (nth_error (ModelNet.list_of_points self) p) as [v|] eqn:Ev;
      [|discriminate H].
    cbn [bind] in H.
    destruct (ModelNet.npoints self <? length v)%nat eqn:El.
    + destruct (farthest_point_sample _ v _) as [sampled|]; [|discriminate H].
      cbn [bind ModelNet.deref] in H.
      destruct (pc_normalize _) as [normalized|]; [|discriminate H].
      cbn [bind ModelNet.write ModelNet.deref] in H.
      get_item_tail H; repeat split; reflexivity.
    + cbn [bind ModelNet.deref] in H. rewrite Ev in H. cbn [bind] in H.
      destruct (pc_normalize _) as [normalized|]; [|discriminate H].
      cbn [bind ModelNet.write ModelNet.deref] in H.
      destruct (nth_error (ModelNet.list_of_points (ModelNet.set_list_of_points _ _)) p);
        [|discriminate H].
      cbn [bind] in H.
      get_item_tail H; cbn [ModelNet.list_of_labels ModelNet.list_of_points
                              ModelNet.set_list_of_points ModelNet.set_gravity_dim];
        (split; [reflexivity|]); (split; [apply setitem_length|]);
        (split;
         [ intros q Hq; apply nth_error_setitem_ne; congruence
         | intros [Hf|(p' & v' & Hp' & Hv' & Hlt)];
           [ discriminate Hf
           | exfalso; injection Hp' as <-; rewrite Ev in Hv'; injection Hv' as <-;
             apply Nat.ltb_ge in El; lia ] ]).
  - destruct (getitem (ModelNet.datafiles self) index) as [fn|]; [|discriminate H].
    cbn [bind] in H.
    destruct (if ModelNet.uniform self then _ else _) as [loaded|];
      [|discriminate H].
    cbn [bind ModelNet.deref] in H.
    destruct (ModelNet.npoints self <? length loaded)%nat.
    + destruct (farthest_point_sample _ loaded _) as [sampled|]; [|discriminate H].
      cbn [bind ModelNet.deref] in H.
      destruct (pc_normalize _) as [normalized|]; [|discriminate H].
      cbn [bind ModelNet.write ModelNet.deref] in H.
      get_item_tail H; repeat split; reflexivity.
    + cbn [bind ModelNet.deref] in H.
      destruct (pc_normalize _) as [normalized|]; [|discriminate H].
      cbn [bind ModelNet.write ModelNet.deref] in H.
      get_item_tail H; repeat split; reflexivity.
Qed.

Lemma get_item_frame_witness :
  exists r self',
    ModelNet._get_item Samples.modelnet_one Samples.modelnet_draws 0
    = Some (r, self')
    /\ ModelNet.list_of_labels self' = ModelNet.list_of_labels Samples.modelnet_one
    /\ length (ModelNet.list_of_points self')
       = length (ModelNet.list_of_points Samples.modelnet_one)
    /\ (forall q,
          resolve_index (length (ModelNet.list_of_points Samples.modelnet_one)) 0
          <> Some q ->
          nth_error (ModelNet.list_of_points self') q
          = nth_error (ModelNet.list_of_points Samples.modelnet_one) q)
    /\ (ModelNet.process_data Samples.modelnet_one = false
        \/ (exists p v,
              resolve_index
                (length (ModelNet.list_of_points Samples.modelnet_one)) 0 = Some p
              /\ nth_error (ModelNet.list_of_points Samples.modelnet_one) p = Some v
              /\ (ModelNet.npoints Samples.modelnet_one < length v)%nat) ->
        ModelNet.list_of_points self'
        = ModelNet.list_of_points Samples.modelnet_one).
Proof.
  destruct (ModelNet._get_item Samples.modelnet_one Samples.modelnet_draws 0)
    as [[r self']|] eqn:E.
  - exists r, self'. split; [reflexivity|].
    exact (get_item_frame Samples.modelnet_one self' Samples.modelnet_draws 0 r E).
  - exfalso. cbn in E. discriminate E.
Defined.

Lemma setitem_twice {A : Type} (l : list A) p v :
  setitem (setitem l p v) p v = setitem l p v.
Proof. revert p; induction l as [|a r IH]; intros [|p]; simpl; congruence. Qed.

(** Putting normalised coordinates back in front of the other columns. *)
Lemma reattach_length (n v : array2) :
  length n = length v ->
  length (zip_with (fun a row => a ++ skipn 3 row) n v) = length v.
Proof. intros H. rewrite zip_with_length, H. apply Nat.min_id. Qed.

Lemma reattach_front (n v : array2) :
  length n = length v ->
  Forall (fun a => length a = 3%nat) n ->
  map (firstn 3) (zip_with (fun a row => a ++ skipn 3 row) n v) = n.
Proof.
  intros Hl Hn; revert v Hl; induction Hn as [|a n Ha _ IH]; intros [|row v] Hl;
    simpl in Hl; try discriminate; [reflexivity|].
  cbn [zip_with map]. rewrite IH by lia. f_equal.
  rewrite firstn_app, Ha, Nat.sub_diag. simpl firstn at 2.
  rewrite app_nil_r. rewrite <- Ha. apply firstn_all.
Qed.

Lemma reattach_twice (n v : array2) :
  Forall (fun a => length a = 3%nat) n ->
  zip_with (fun a row => a ++ skipn 3 row) n
    (zip_with (fun a row => a ++ skipn 3 row) n v)
  = zip_with (fun a row => a ++ skipn 3 row) n v.
Proof.
  intros Hn; revert v; induction Hn as [|a n Ha _ IH]; intros [|row v];
    try reflexivity.
  cbn [zip_with]. rewrite IH. f_equal.
  destruct a as [|x [|y [|z [|? ?]]]]; try discriminate. reflexivity.
Qed.

Lemma use_height_set_list_of_points self c :
  ModelNet.use_height (ModelNet.set_list_of_points self c)
  = ModelNet.use_height self.
Proof. reflexivity. Qed.

Lemma use_normals_set_list_of_points self c :
  ModelNet.use_normals (ModelNet.set_list_of_points self c)
  = ModelNet.use_normals self.
Proof. reflexivity. Qed.

(** [_get_item] on a cached cloud that is not resampled, without the
    height column. *)
Lemma get_item_cached self d index p v label l0 n :
  ModelNet.process_data self = true ->
  ModelNet.use_height self = false ->
  resolve_index (length (ModelNet.list_of_points self)) index = Some p ->
  getitem (ModelNet.list_of_labels self) index = Some label ->
  nth_error label 0 = Some l0 ->
  nth_error (ModelNet.list_of_points self) p = Some v ->
  (length v <= ModelNet.npoints self)%nat ->
  pc_normalize (map (firstn 3) v) = Some n ->
  ModelNet._get_item self d index
  = Some ((if negb (ModelNet.use_normals self)
           then map (firstn 3) (zip_with (fun a row => a ++ skipn 3 row) n v)
           else zip_with (fun a row => a ++ skipn 3 row) n v,
           l0),
          ModelNet.set_list_of_points self
            (setitem (ModelNet.list_of_points self) p
               (zip_with (fun a row => a ++ skipn 3 row) n v))).
Proof.
  intros Hpd Hh Hres Hlab Hl0 Hv Hlen Hn. unfold ModelNet._get_item.
  rewrite Hpd, Hres. cbn [bind]. rewrite Hlab. cbn [bind ModelNet.deref].
  rewrite Hv. cbn [bind].
  assert (El : (ModelNet.npoints self <? length v)%nat = false)
    by (apply Nat.ltb_ge; exact Hlen).
  rewrite El. cbn [bind ModelNet.deref]. rewrite Hv. cbn [bind]. rewrite Hn.
  cbn [bind ModelNet.write ModelNet.deref ModelNet.list_of_points
         ModelNet.set_list_of_points].
  rewrite nth_error_setitem_eq
    by (apply nth_error_Some; congruence).
  cbn [bind]. rewrite use_height_set_list_of_points, Hh.
  rewrite !use_normals_set_list_of_points.
  cbn [bind]. rewrite Hl0. reflexivity.
Qed.

Lemma get_item_cached_inv self d index p v r self' :
  ModelNet.process_data self = true ->
  resolve_index (length (ModelNet.list_of_points self)) index = Some p ->
  nth_error (ModelNet.list_of_points self) p = Some v ->
  (length v <= ModelNet.npoints self)%nat ->
  ModelNet._get_item self d index = Some (r, self') ->
  exists label l0 n,
    getitem (ModelNet.list_of_labels self) index = Some label
    /\ nth_error label 0 = Some l0
    /\ pc_normalize (map (firstn 3) v) = Some n.
Proof.
  intros Hpd Hres Hv Hlen H. unfold ModelNet._get_item in H.
  rewrite Hpd, Hres in H. cbn [bind] in H.
  destruct (getitem (ModelNet.list_of_labels self) index) as [label|];
    [|discriminate H].
  cbn [bind ModelNet.deref] in H. rewrite Hv in H. cbn [bind] in H.
  assert (El : (ModelNet.npoints self <? length v)%nat = false)
    by (apply Nat.ltb_ge; exact Hlen).
  rewrite El in H. cbn [bind ModelNet.deref] in H. rewrite Hv in H.
  cbn [bind] in H.
  destruct (pc_normalize (map (firstn 3) v)) as [n|]; [|discriminate H].
  cbn [bind ModelNet.write ModelNet.deref] in H.
  destruct (nth_error (ModelNet.list_of_points (ModelNet.set_list_of_points _ _)) p);
    [|discriminate H].
  cbn [bind] in H.
  destruct (nth_error label 0) as [l0|] eqn:El0.
  - exists label, l0, n. repeat split. exact El0.
  - exfalso.
    destruct (ModelNet.use_height _);
      [destruct (Np.amin _); [|discriminate H] |]; cbn [bind] in H;
      discriminate H.
Qed.

(** X14.  Once a cloud has been retrieved from the cache without resampling,
    retrieving it again, with any draws, returns the same points and label
    and leaves the object as the first retrieval left it: the normalised
    coordinates written to the cache are a fixed point of the
    normalisation. *)
Theorem get_item_twice (self self' : ModelNet.t) (d d' : ModelNet.draws)
    (index : Z) (p N D : nat) (v : array2) (r : array2 * Z) :
  ModelNet.process_data self = true ->
  ModelNet.use_height self = false ->
  resolve_index (length (ModelNet.list_of_points self)) index = Some p ->
  nth_error (ModelNet.list_of_points self) p = Some v ->
  shape2 N D v ->
  (3 <= D)%nat ->
  (N <= ModelNet.npoints self)%nat ->
  (exists a b, In a (map (firstn 3) v) /\ In b (map (firstn 3) v) /\ a <> b) ->
  ModelNet._get_item self d index = Some (r, self') ->
  ModelNet._get_item self' d' index = Some (r, self').
Proof.
  intros Hpd Hh Hres Hv Hs HD HN Hdiff H.
  assert (Hlen : (length v <= ModelNet.npoints self)%nat)
    by (destruct Hs as [-> _]; exact HN).
  destruct (get_item_cached_inv self d index p v r self' Hpd Hres Hv Hlen H)
    as (label & l0 & n & Hlab & Hl0 & Hn).
  rewrite (get_item_cached self d index p v label l0 n
             Hpd Hh Hres Hlab Hl0 Hv Hlen Hn) in H.
  match type of H with
  | Some (?A, ?B) = Some _ =>
      assert (Er : r = A) by congruence;
      assert (Es : self' = B) by congruence
  end.
  clear H. subst r self'.
  assert (Hxyz : shape2 N 3 (map (firstn 3) v)).
  { destruct Hs as [Hl Hr]. split; [rewrite length_map; exact Hl|].
    apply Forall_map. eapply Forall_impl; [|exact Hr].
    intros row Hrow. cbv beta. rewrite length_firstn, Hrow. lia. }
  assert (HN1 : (1 <= N)%nat).
  { destruct Hdiff as (a & _ & Ha & _). destruct Hxyz as [Hl _].
    destruct (map (firstn 3) v); [destruct Ha | simpl in Hl; lia]. }
  assert (Hnshape : shape2 N 3 n).
  { destruct (pc_normalize_shape N 3 _ Hxyz HN1) as (n' & Hn' & Hsh).
    rewrite Hn in Hn'. injection Hn' as <-. exact Hsh. }
  assert (Hnv : length n = length v).
  { destruct Hnshape as [-> _]. destruct Hs as [-> _]. reflexivity. }
  assert (Hn3 : Forall (fun a => length a = 3%nat) n) by (destruct Hnshape; assumption).
  set (v' := zip_with (fun a row => a ++ skipn 3 row) n v).
  set (cache' := setitem (ModelNet.list_of_points self) p v').
  assert (Hp : (p < length (ModelNet.list_of_points self))%nat)
    by (apply nth_error_Some; congruence).
  rewrite (get_item_cached (ModelNet.set_list_of_points self cache') d' index p
             v' label l0 n).
  - rewrite use_normals_set_list_of_points.
    cbn [ModelNet.list_of_points ModelNet.set_list_of_points].
    unfold v' at 1 2 3. rewrite (reattach_twice n v Hn3). fold v'.
    unfold cache'. rewrite setitem_twice. reflexivity.
  - exact Hpd.
  - exact Hh.
  - cbn [ModelNet.list_of_points ModelNet.set_list_of_points].
    unfold cache'. rewrite setitem_length. exact Hres.
  - exact Hlab.
  - exact Hl0.
  - cbn [ModelNet.list_of_points ModelNet.set_list_of_points].
    unfold cache'. apply nth_error_setitem_eq. exact Hp.
  - cbn [ModelNet.npoints ModelNet.set_list_of_points].
    unfold v'. rewrite (reattach_length n v Hnv). exact Hlen.
  - unfold v'. rewrite (reattach_front n v Hnv Hn3).
    apply (pc_normalize_again (map (firstn 3) v) n N 3 Hxyz HN1 Hdiff Hn).
Qed.

Lemma get_item_twice_witness :
  ModelNet.process_data Samples.modelnet = true
  /\ ModelNet.use_height Samples.modelnet = false
  /\ resolve_index (length (ModelNet.list_of_points Samples.modelnet)) 0
     = Some 0%nat
  /\ nth_error (ModelNet.list_of_points Samples.modelnet) 0
     = Some Samples.cached_cloud
  /\ shape2 2 6 Samples.cached_cloud
  /\ (3 <= 6)%nat
  /\ (2 <= ModelNet.npoints Samples.modelnet)%nat
  /\ (exists a b, In a (map (firstn 3) Samples.cached_cloud)
                  /\ In b (map (firstn 3) Samples.cached_cloud) /\ a <> b)
  /\ ModelNet._get_item Samples.modelnet Samples.modelnet_draws 0
     = Some (([[-1; 0; 0]; [1; 0; 0]], 0%Z),
             ModelNet.set_list_of_points Samples.modelnet
               [[[-1; 0; 0; 0; 0; 1]; [1; 0; 0; 0; 0; 1]]])
  /\ ModelNet._get_item
       (ModelNet.set_list_of_points Samples.modelnet
          [[[-1; 0; 0; 0; 0; 1]; [1; 0; 0; 0; 0; 1]]])
       Samples.modelnet_draws 0
     = Some (([[-1; 0; 0]; [1; 0; 0]], 0%Z),
             ModelNet.set_list_of_points Samples.modelnet
               [[[-1; 0; 0; 0; 0; 1]; [1; 0; 0; 0; 0; 1]]]).
Proof.
  assert (H1 : ModelNet.process_data Samples.modelnet = true) by reflexivity.
  assert (H2 : ModelNet.use_height Samples.modelnet = false) by reflexivity.
  assert (H3 : resolve_index (length (ModelNet.list_of_points Samples.modelnet)) 0
               = Some 0%nat) by reflexivity.
  assert (H4 : nth_error (ModelNet.list_of_points Samples.modelnet) 0
               = Some Samples.cached_cloud) by reflexivity.
  assert (H5 : shape2 2 6 Samples.cached_cloud).
  { split; [reflexivity|]. repeat constructor. }
  assert (H6 : (3 <= 6)%nat) by lia.
  assert (H7 : (2 <= ModelNet.npoints Samples.modelnet)%nat) by (simpl; lia).
  assert (H8 : exists a b, In a (map (firstn 3) Samples.cached_cloud)
                           /\ In b (map (firstn 3) Samples.cached_cloud) /\ a <> b).
  { exists [0; 0; 0], [2; 0; 0]. split; [left; reflexivity|].
    split; [right; left; reflexivity|].
    intros E. injection E as E. lra. }
  split; [exact H1|]. split; [exact H2|]. split; [exact H3|]. split; [exact H4|].
  split; [exact H5|]. split; [exact H6|]. split; [exact H7|]. split; [exact H8|].
  split; [exact get_item_modelnet_value|].
  exact (get_item_twice Samples.modelnet _ Samples.modelnet_draws
           Samples.modelnet_draws 0 0 2 6 Samples.cached_cloud _
           H1 H2 H3 H4 H5 H6 H7 H8 get_item_modelnet_value).
Defined.

Close Scope R_scope.

(** ** ShapeNet: the sampling step *)


Lemma mapM_nth_error_in_range {A : Type} (l : list A) (idx : list nat) d :
  Forall (fun i => i < length l) idx ->
  mapM (nth_error l) idx = Some (map (fun i => nth i l d) idx).
Proof.
  induction 1 as [|i r Hi _ IH]; simpl; [reflexivity|].
  rewrite (nth_error_nth' l d Hi), IH. reflexivity.
Qed.

Lemma map_nth_seq_id {A : Type} (l : list A) d :
  map (fun i => nth i l d) (seq 0 (length l)) = l.
Proof.
  apply (nth_ext _ _ d d).
  - rewrite length_map, length_seq. reflexivity.
  - intros n Hn. rewrite length_map, length_seq in Hn.
    rewrite (nth_map_lt _ _ n d 0) by (rewrite length_seq; exact Hn).
    rewrite seq_nth by exact Hn. reflexivity.
Qed.




(** ** Names of shapes and of files *)

Section Strings.

Open Scope string_scope.

Lemma split_not_nil sep s : Str.split sep s <> [].
Proof.
  destruct s as [|c r]; simpl; [discriminate|].
  destruct (Ascii.eqb c sep); [discriminate|].
  destruct (Str.split sep r); discriminate.
Qed.

Lemma split_without_sep sep s : Str.mem sep s = false -> Str.split sep s = [s].
Proof.
  induction s as [|c r IH]; simpl; intros H; [reflexivity|].
  apply orb_false_iff in H. destruct H as [Hc Hr].
  rewrite Hc, (IH Hr). reflexivity.
Qed.

Lemma split_append sep s t :
  Str.split sep (s ++ String sep t) = (Str.split sep s ++ Str.split sep t)%list.
Proof.
  induction s as [|c r IH]; simpl.
  - rewrite Ascii.eqb_refl. reflexivity.
  - destruct (Ascii.eqb c sep).
    + rewrite IH. reflexivity.
    + rewrite IH. destruct (Str.split sep r) as [|p ps] eqn:E.
      * exfalso. exact (split_not_nil sep r E).
      * reflexivity.
Qed.

Lemma join_split sep s : Str.join sep (Str.split sep s) = s.
Proof.
  induction s as [|c r IH]; [reflexivity|].
  simpl Str.split. destruct (Ascii.eqb c sep) eqn:Ec.
  - apply Ascii.eqb_eq in Ec. subst c.
    destruct (Str.split sep r) as [|p ps] eqn:E;
      [exfalso; exact (split_not_nil sep r E)|].
    change (Str.join sep ("" :: p :: ps))
      with ("" ++ String sep (Str.join sep (p :: ps))).
    rewrite IH. reflexivity.
  - destruct (Str.split sep r) as [|p ps] eqn:E;
      [exfalso; exact (split_not_nil sep r E)|].
    destruct ps as [|q qs].
    + simpl in IH. simpl. rewrite IH. reflexivity.
    + change (Str.join sep (String c p :: q :: qs))
        with (String c (p ++ String sep (Str.join sep (q :: qs)))).
      change (Str.join sep (p :: q :: qs))
        with (p ++ String sep (Str.join sep (q :: qs))) in IH.
      rewrite IH. reflexivity.
Qed.

Lemma drop_append s c t : Str.drop (String.length s + 1) (s ++ String c t) = t.
Proof. induction s as [|c' r IH]; simpl; [reflexivity | exact IH]. Qed.

Lemma drop_past_end s : Str.drop (String.length s + 1) s = "".
Proof. induction s as [|c r IH]; simpl; [reflexivity | exact IH]. Qed.

End Strings.

(** X17.  The class name [ModelNet.__init__] reads off a shape id is the id
    without its last underscore and what follows it, underscores inside the
    class name included; an id without an underscore gives the empty
    name. *)
Theorem shape_name_of_id (class_name number : string) :
  Str.mem "_" number = false ->
  ModelNet.shape_name (class_name ++ String "_" number)%string = class_name
  /\ ModelNet.shape_name number = EmptyString.
Proof.
  intros H. unfold ModelNet.shape_name. split.
  - rewrite split_append, (split_without_sep _ number H).
    rewrite removelast_last. apply join_split.
  - rewrite (split_without_sep _ number H). reflexivity.
Qed.

Lemma shape_name_of_id_witness :
  Str.mem "_" "0001" = false
  /\ ModelNet.shape_name ("night_stand" ++ String "_" "0001")%string
     = "night_stand"%string
  /\ ModelNet.shape_name "0001" = EmptyString.
Proof.
  assert (H : Str.mem "_" "0001" = false) by reflexivity.
  split; [exact H|].
  exact (shape_name_of_id "night_stand" "0001" H).
Defined.

(** X18.  A line [taxonomy-model.extension] of a ShapeNet list file is read
    back as its taxonomy id and its model id, whatever hyphens the model id
    and dots the extension contain; a line without a hyphen is taken whole
    as taxonomy id, with an empty model id. *)
Theorem parse_line_of_name (taxonomy model extension : string) :
  Str.mem "-" taxonomy = false ->
  Str.mem "." model = false ->
  ShapeNet.parse_line
    (taxonomy ++ String "-" (model ++ String "." extension))%string
  = {| ShapeNet.taxonomy_id := taxonomy;
       ShapeNet.model_id := model;
       ShapeNet.file_path :=
         (taxonomy ++ String "-" (model ++ String "." extension))%string |}
  /\ ShapeNet.parse_line taxonomy
     = {| ShapeNet.taxonomy_id := taxonomy;
          ShapeNet.model_id := EmptyString;
          ShapeNet.file_path := taxonomy |}.
Proof.
  intros Ht Hm. unfold ShapeNet.parse_line. split.
  - rewrite split_append, (split_without_sep _ taxonomy Ht).
    cbn [app hd]. rewrite drop_append.
    rewrite split_append, (split_without_sep _ model Hm). reflexivity.
  - rewrite (split_without_sep _ taxonomy Ht). cbn [hd].
    rewrite drop_past_end. reflexivity.
Qed.

Lemma parse_line_of_name_witness :
  Str.mem "-" "02691156" = false
  /\ Str.mem "." "1a04-e3" = false
  /\ ShapeNet.parse_line
       ("02691156" ++ String "-" ("1a04-e3" ++ String "." "npy"))%string
     = {| ShapeNet.taxonomy_id := "02691156";
          ShapeNet.model_id := "1a04-e3";
          ShapeNet.file_path :=
            ("02691156" ++ String "-" ("1a04-e3" ++ String "." "npy"))%string |}
  /\ ShapeNet.parse_line "02691156"
     = {| ShapeNet.taxonomy_id := "02691156";
          ShapeNet.model_id := EmptyString;
          ShapeNet.file_path := "02691156" |}.
Proof.
  assert (Ht : Str.mem "-" "02691156" = false) by reflexivity.
  assert (Hm : Str.mem "." "1a04-e3" = false) by reflexivity.
  split; [exact Ht|]. split; [exact Hm|].
  exact (parse_line_of_name "02691156" "1a04-e3" "npy" Ht Hm).
Defined.

(** ** ModelNet: the sample returned *)

Lemma get_item_config (self self' : ModelNet.t) (d : ModelNet.draws)
    (index : Z) (r : array2 * Z) :
  ModelNet._get_item self d index = Some (r, self') ->
  ModelNet.shape_names self' = ModelNet.shape_names self
  /\ ModelNet.subset self' = ModelNet.subset self.
Proof.
  intros H. unfold ModelNet._get_item in H.
  destruct (ModelNet.process_data self).
  - destruct (resolve_index _ index) as [p|]; [|discriminate H].
    cbn [bind] in H.
    destruct (getitem (ModelNet.list_of_labels self) index) as [label|];
      [|discriminate H].
    cbn [bind ModelNet.deref] in H.
    destruct (nth_error (ModelNet.list_of_points self) p) as [v|] eqn:Ev;
      [|discriminate H].
    cbn [bind] in H.
    destruct (ModelNet.npoints self <? length v)%nat.
    + destruct (farthest_point_sample _ v _) as [sampled|]; [|discriminate H].
      cbn [bind ModelNet.deref] in H.
      destruct (pc_normalize _) as [normalized|]; [|discriminate H].
      cbn [bind ModelNet.write ModelNet.deref] in H.
      get_item_tail H; split; reflexivity.
    + cbn [bind ModelNet.deref] in H. rewrite Ev in H. cbn [bind] in H.
      destruct (pc_normalize _) as [normalized|]; [|discriminate H].
      cbn [bind ModelNet.write ModelNet.deref] in H.
      destruct (nth_error (ModelNet.list_of_points (ModelNet.set_list_of_points _ _)) p);
        [|discriminate H].
      cbn [bind] in H.
      get_item_tail H; split; reflexivity.
  - destruct (getitem (ModelNet.datafiles self) index) as [fn|]; [|discriminate H].
    cbn [bind] in H.
    destruct (if ModelNet.uniform self then _ else _) as [loaded|];
      [|discriminate H].
    cbn [bind ModelNet.deref] in H.
    destruct (ModelNet.npoints self <? length loaded)%nat.
    + destruct (farthest_point_sample _ loaded _) as [sampled|]; [|discriminate H].
      cbn [bind ModelNet.deref] in H.
      destruct (pc_normalize _) as [normalized|]; [|discriminate H].
      cbn [bind ModelNet.write ModelNet.deref] in H.
      get_item_tail H; split; reflexivity.
    + cbn [bind ModelNet.deref] in H.
      destruct (pc_normalize _) as [normalized|]; [|discriminate H].
      cbn [bind ModelNet.write ModelNet.deref] in H.
      get_item_tail H; split; reflexivity.
Qed.

(** X15.  [__getitem__] returns the points of [_get_item] with the name of their
    class: in the order [_get_item] gives them outside the training subset,
    reordered by the shuffle but neither dropped nor repeated in it; a label
    without a name in [shape_names] raises. *)
Theorem getitem_reorders (self self1 : ModelNet.t) (d : ModelNet.draws)
    (index : Z) (points : array2) (label : Z) :
  ModelNet._get_item self d index = Some ((points, label), self1) ->
  Permutation (ModelNet.shuffled d) (seq 0 (length points)) ->
  (forall name,
     getitem (ModelNet.shape_names self) label = Some name ->
     exists current_points,
       ModelNet.__getitem__ self d index
       = Some ({| ModelNet.pc := current_points;
                  ModelNet.label := label;
                  ModelNet.class_name := name |}, self1)
       /\ Permutation current_points points
       /\ (ModelNet.subset self <> "train"%string -> current_points = points))
  /\ (getitem (ModelNet.shape_names self) label = None ->
      ModelNet.__getitem__ self d index = None).
Proof.
  intros H Hperm.
  destruct (get_item_config self self1 d index _ H) as [Hnames Hsubset].
  assert (Hpts : exists current_points,
            mapM (nth_error points)
              (if String.eqb (ModelNet.subset self1) "train"
               then ModelNet.shuffled d else seq 0 (length points))
            = Some current_points
            /\ Permutation current_points points
            /\ (ModelNet.subset self <> "train"%string -> current_points = points)).
  { rewrite Hsubset. destruct (String.eqb_spec (ModelNet.subset self) "train") as [E|E].
    - assert (Hall : Forall (fun i => i < length points) (ModelNet.shuffled d)).
      { apply Forall_forall. intros i Hi.
        apply (Permutation_in _ Hperm) in Hi. apply in_seq in Hi. lia. }
      rewrite (mapM_nth_error_in_range points _ [] Hall).
      eexists. split; [reflexivity|]. split; [|congruence].
      apply Permutation_trans
        with (map (fun i => nth i points []) (seq 0 (length points))).
      + apply Permutation_map. exact Hperm.
      + rewrite map_nth_seq_id. apply Permutation_refl.
    - assert (Hall : Forall (fun i => i < length points) (seq 0 (length points))).
      { apply Forall_forall. intros i Hi. apply in_seq in Hi. lia. }
      rewrite (mapM_nth_error_in_range points _ [] Hall), map_nth_seq_id.
      exists points. split; [reflexivity|]. split; [apply Permutation_refl|].
      reflexivity. }
  destruct Hpts as (pts & Hm & Hp & Hs).
  split.
  - intros name Hname. exists pts. split; [|split; assumption].
    unfold ModelNet.__getitem__. rewrite H. cbn [bind]. rewrite Hm. cbn [bind].
    rewrite Hnames, Hname. reflexivity.
  - intros Hnone. unfold ModelNet.__getitem__. rewrite H. cbn [bind].
    rewrite Hm. cbn [bind]. rewrite Hnames, Hnone. reflexivity.
Qed.

Lemma getitem_reorders_witness :
  ModelNet._get_item Samples.modelnet Samples.modelnet_draws 0
  = Some (([[-1; 0; 0]; [1; 0; 0]]%R, 0%Z),
          ModelNet.set_list_of_points Samples.modelnet
            [[[-1; 0; 0; 0; 0; 1]; [1; 0; 0; 0; 0; 1]]]%R)
  /\ Permutation (ModelNet.shuffled Samples.modelnet_draws)
       (seq 0 (length [[-1; 0; 0]; [1; 0; 0]]%R))
  /\ (forall name,
        getitem (ModelNet.shape_names Samples.modelnet) 0%Z = Some name ->
        exists current_points,
          ModelNet.__getitem__ Samples.modelnet Samples.modelnet_draws 0
          = Some ({| ModelNet.pc := current_points;
                     ModelNet.label := 0%Z;
                     ModelNet.class_name := name |},
                  ModelNet.set_list_of_points Samples.modelnet
                    [[[-1; 0; 0; 0; 0; 1]; [1; 0; 0; 0; 0; 1]]]%R)
          /\ Permutation current_points [[-1; 0; 0]; [1; 0; 0]]%R
          /\ (ModelNet.subset Samples.modelnet <> "train"%string ->
              current_points = [[-1; 0; 0]; [1; 0; 0]]%R))
  /\ (getitem (ModelNet.shape_names Samples.modelnet) 0%Z = None ->
      ModelNet.__getitem__ Samples.modelnet Samples.modelnet_draws 0 = None).
Proof.
  assert (Hp : Permutation (ModelNet.shuffled Samples.modelnet_draws)
                 (seq 0 (length [[-1; 0; 0]; [1; 0; 0]]%R)))
    by apply Permutation_refl.
  split; [exact get_item_modelnet_value|]. split; [exact Hp|].
  exact (getitem_reorders Samples.modelnet _ Samples.modelnet_draws 0 _ 0%Z
           get_item_modelnet_value Hp).
Defined.
(** ** Configuration files: what merging gives *)

Section ConfigFacts.

Import Config.

Variable refuses : string -> value -> bool.
Variable files : string -> option value.

Lemma key_eqb_refl k : key_eqb k k = true.
Proof. destruct k; simpl; apply String.eqb_refl. Qed.

Lemma key_eqb_spec a b : reflect (a = b) (key_eqb a b).
Proof.
  destruct a as [s|s], b as [t|t]; simpl;
    try (constructor; discriminate);
    destruct (String.eqb_spec s t) as [->|Hne]; constructor;
    try reflexivity; intros [= E]; exact (Hne E).
Qed.

Lemma setitem_accepted name v items :
  refuses name v = false ->
  setitem refuses (KStr name) v items = Some (set (KStr name) v items).
Proof. intros H. unfold setitem. rewrite H. reflexivity. Qed.

Lemma mem_false k items : mem k items = false <-> ~ In k (map fst items).
Proof.
  induction items as [|[k' v] rest IH]; simpl.
  - split; [intros _ [] | reflexivity].
  - rewrite orb_false_iff, IH. split.
    + intros [Hk Hr] [E|Hin]; [|exact (Hr Hin)].
      subst. rewrite key_eqb_refl in Hk. discriminate.
    + intros H. split.
      * destruct (key_eqb_spec k' k) as [E|_]; [|reflexivity].
        exfalso. apply H. left. exact E.
      * intros Hin. apply H. right. exact Hin.
Qed.

Lemma set_absent k v items :
  mem k items = false -> set k v items = items ++ [(k, v)].
Proof.
  induction items as [|[k' v'] rest IH]; simpl; intros H; [reflexivity|].
  apply orb_false_iff in H. destruct H as [Hk Hr].
  rewrite Hk, (IH Hr). reflexivity.
Qed.

Lemma get_last k v items :
  mem k items = false -> get k (items ++ [(k, v)]) = Some v.
Proof.
  induction items as [|[k' v'] rest IH]; simpl; intros H.
  - rewrite key_eqb_refl. reflexivity.
  - apply orb_false_iff in H. destruct H as [Hk Hr].
    rewrite Hk. exact (IH Hr).
Qed.

Lemma set_last k v v' items :
  mem k items = false ->
  set k v' (items ++ [(k, v)]) = items ++ [(k, v')].
Proof.
  induction items as [|[k' w] rest IH]; simpl; intros H.
  - rewrite key_eqb_refl. reflexivity.
  - apply orb_false_iff in H. destruct H as [Hk Hr].
    rewrite Hk, (IH Hr). reflexivity.
Qed.

Lemma get_mem k v items : get k items = Some v -> mem k items = true.
Proof.
  induction items as [|[k' w] rest IH]; simpl; [discriminate|].
  destruct (key_eqb k' k); [reflexivity | exact IH].
Qed.

Lemma set_same k v items : get k items = Some v -> set k v items = items.
Proof.
  induction items as [|[k' w] rest IH]; simpl; [discriminate|].
  destruct (key_eqb_spec k' k) as [->|Hne].
  - intros [= ->]. reflexivity.
  - intros H. rewrite (IH H). reflexivity.
Qed.

Lemma get_set k v items : get k (set k v items) = Some v.
Proof.
  induction items as [|[k' w] rest IH]; simpl.
  - rewrite key_eqb_refl. reflexivity.
  - destruct (key_eqb k' k) eqn:E; simpl.
    + rewrite key_eqb_refl. reflexivity.
    + rewrite E. exact IH.
Qed.

Lemma set_set k v v' items : set k v' (set k v items) = set k v' items.
Proof.
  induction items as [|[k' w] rest IH]; simpl.
  - rewrite key_eqb_refl. reflexivity.
  - destruct (key_eqb k' k) eqn:E; simpl.
    + rewrite key_eqb_refl. reflexivity.
    + rewrite E, IH. reflexivity.
Qed.

Lemma get_in k v items :
  NoDup (map fst items) -> In (k, v) items -> get k items = Some v.
Proof.
  induction items as [|[k' w] rest IH]; simpl; intros Hnd Hin; [destruct Hin|].
  inversion Hnd as [|? ? Hk Hrest]; subst.
  destruct Hin as [[= -> ->]|Hin].
  - rewrite key_eqb_refl. reflexivity.
  - destruct (key_eqb_spec k' k) as [->|Hne]; [|exact (IH Hrest Hin)].
    exfalso. apply Hk. apply (in_map fst) in Hin. exact Hin.
Qed.

Lemma depth_cons k v rest :
  depth (Dict ((k, v) :: rest)) = Nat.max (S (depth v)) (depth (Dict rest)).
Proof. cbn [depth]. lia. Qed.

(** Merging the items of a file without includes into a dict that has
    none of their keys appends them. *)
Lemma merge_fresh fuel :
  forall pre items,
    depth (Dict items) <= fuel ->
    plain refuses (Dict items) ->
    (forall k, In k (map fst items) -> ~ In k (map fst pre)) ->
    merge_new_config fuel refuses files (Dict pre) items
    = Some (Dict (pre ++ items)).
Proof.
  induction fuel as [|fuel IH]; intros pre items Hd Hp Hfresh.
  - simpl in Hd. lia.
  - cbn [merge_new_config].
    revert pre Hd Hp Hfresh. induction items as [|[k v] rest IHitems];
      intros pre Hd Hp Hfresh.
    + rewrite app_nil_r. reflexivity.
    + destruct Hp as [Hnd (Hkey & Hpv & Hprest)].
      inversion Hnd as [|? ? Hk Hndrest]; subst.
      assert (Hmem : mem k pre = false).
      { apply mem_false. apply Hfresh. left. reflexivity. }
      assert (Hd' : depth (Dict rest) <= S fuel)
        by (rewrite depth_cons in Hd; lia).
      assert (Hf' : forall pre' : list (key * value),
                map fst pre' = map fst pre ++ [k] ->
                forall k', In k' (map fst rest) -> ~ In k' (map fst pre')).
      { intros pre' Hkeys k' Hk' Hin. rewrite Hkeys in Hin.
        apply in_app_or in Hin. destruct Hin as [Hin|[<-|[]]].
        - apply (Hfresh k'); [right; exact Hk' | exact Hin].
        - exact (Hk Hk'). }
      destruct k as [name|id]; [|destruct v; contradiction].
      destruct v as [text|sub].
      * destruct Hkey as [Hbase Hok].
        assert (Eb : key_eqb (KStr name) (KStr "_base_") = false)
          by (simpl; apply String.eqb_neq; exact Hbase).
        rewrite Eb, (setitem_accepted _ _ _ Hok). cbn [bind].
        rewrite (set_absent _ _ pre Hmem).
        rewrite (IHitems _ Hd' (conj Hndrest Hprest)
                   (Hf' _ (map_app (@fst key value) pre
                             [(KStr name, Scalar text)]))).
        rewrite <- app_assoc. reflexivity.
      * rewrite Hmem, (setitem_accepted _ _ _ Hkey). cbn [bind].
        rewrite (set_absent _ _ pre Hmem), (get_last _ _ pre Hmem).
        cbn [bind].
        rewrite (IH [] sub).
        -- cbn [bind app]. rewrite (set_last _ _ _ pre Hmem).
           rewrite (IHitems _ Hd' (conj Hndrest Hprest)
                      (Hf' _ (map_app (@fst key value) pre
                                [(KStr name, Dict sub)]))).
           rewrite <- app_assoc. reflexivity.
        -- rewrite depth_cons in Hd. lia.
        -- exact Hpv.
        -- intros k' _ [].
Qed.

(** Merging the items a dict already has, with the same values, changes
    nothing. *)
Lemma merge_same fuel :
  forall config items,
    depth (Dict items) <= fuel ->
    plain refuses (Dict items) ->
    (forall k v, In (k, v) items -> get k config = Some v) ->
    merge_new_config fuel refuses files (Dict config) items
    = Some (Dict config).
Proof.
  induction fuel as [|fuel IH]; intros config items Hd Hp Hsame.
  - simpl in Hd. lia.
  - cbn [merge_new_config].
    revert Hd Hp Hsame. induction items as [|[k v] rest IHitems];
      intros Hd Hp Hsame; [reflexivity|].
    destruct Hp as [Hnd (Hkey & Hpv & Hprest)].
    inversion Hnd as [|? ? Hk Hndrest]; subst.
    pose proof (Hsame k v (or_introl eq_refl)) as Hget.
    assert (Hd' : depth (Dict rest) <= S fuel) by (rewrite depth_cons in Hd; lia).
    assert (Hs' : forall k' v', In (k', v') rest -> get k' config = Some v')
      by (intros k' v' Hin; apply Hsame; right; exact Hin).
    specialize (IHitems Hd' (conj Hndrest Hprest) Hs').
    destruct k as [name|id]; [|destruct v; contradiction].
    destruct v as [text|sub].
    + destruct Hkey as [Hbase Hok].
      assert (Eb : key_eqb (KStr name) (KStr "_base_") = false)
        by (simpl; apply String.eqb_neq; exact Hbase).
      rewrite Eb, (setitem_accepted _ _ _ Hok). cbn [bind].
      rewrite (set_same _ _ config Hget). exact IHitems.
    + rewrite (get_mem _ _ config Hget). cbn [bind]. rewrite Hget. cbn [bind].
      rewrite (IH sub sub).
      * cbn [bind]. rewrite (set_same _ _ config Hget). exact IHitems.
      * rewrite depth_cons in Hd. lia.
      * exact Hpv.
      * intros k' v' Hin. apply get_in; [|exact Hin].
        destruct Hpv as [Hndsub _]. exact Hndsub.
Qed.

Lemma mem_set k k' v items :
  mem k' (set k v items) = key_eqb k k' || mem k' items.
Proof.
  induction items as [|[k0 w] rest IH]; simpl.
  - rewrite orb_false_r. reflexivity.
  - destruct (key_eqb_spec k0 k) as [->|Hne]; simpl.
    + destruct (key_eqb k k'); reflexivity.
    + rewrite IH. destruct (key_eqb k0 k'), (key_eqb k k'); reflexivity.
Qed.

(** A successful store keeps the keys of an [EasyDict] strings. *)
Lemma setitem_string_keys k v items items' :
  (forall id, mem (KOther id) items = false) ->
  setitem refuses k v items = Some items' ->
  forall id, mem (KOther id) items' = false.
Proof.
  intros Hstr H id. destruct k as [name|id']; simpl in H; [|discriminate].
  destruct (refuses name v); [discriminate|].
  injection H as <-. rewrite mem_set. simpl. apply Hstr.
Qed.

(** So does the merge into the value under a key. *)
Lemma merge_into_string_keys fuel k sub items items' :
  (forall id, mem (KOther id) items = false) ->
  (inner <- get k items ;;
   inner <- merge_new_config fuel refuses files inner sub ;;
   Some (set k inner items)) = Some items' ->
  forall id, mem (KOther id) items' = false.
Proof.
  intros Hstr H id.
  destruct (get k items) as [inner|] eqn:Hget; [|discriminate].
  cbn [bind] in H.
  destruct (merge_new_config fuel refuses files inner sub) as [inner'|];
    [|discriminate].
  cbn [bind] in H. injection H as <-. rewrite mem_set.
  destruct k as [name|id']; simpl; [apply Hstr|].
  apply get_mem in Hget. rewrite Hstr in Hget. discriminate.
Qed.

(** An item whose key is no string makes the merge raise, wherever it
    stands among the items. *)
Lemma merge_key_not_a_string fuel id val :
  forall items config,
    (forall id', mem (KOther id') config = false) ->
    In (KOther id, val) items ->
    merge_new_config fuel refuses files (Dict config) items = None.
Proof.
  destruct fuel as [|fuel]; [reflexivity|].
  cbn [merge_new_config].
  induction items as [|[k v] rest IH]; intros config Hstr Hin; [destruct Hin|].
  destruct Hin as [[= -> ->]|Hin].
  - destruct val as [text|sub]; [reflexivity|].
    rewrite (Hstr id). reflexivity.
  - match goal with
    | |- bind ?step _ = None => destruct step as [config'|] eqn:Hstep
    end; [|reflexivity].
    cbn [bind]. apply IH; [|exact Hin].
    destruct v as [text|sub].
    + destruct (key_eqb k (KStr "_base_")).
      * destruct (files text) as [loaded|]; [|discriminate].
        cbn [bind] in Hstep.
        destruct (setitem refuses k (Dict []) config) as [c1|] eqn:H1;
          [|discriminate].
        cbn [bind] in Hstep.
        destruct loaded as [text'|sub]; [discriminate|].
        match type of Hstep with
        | bind ?first _ = _ => destruct first as [c2|] eqn:H2
        end; [|discriminate].
        cbn [bind] in Hstep.
        pose proof (setitem_string_keys _ _ _ _ Hstr H1) as Hs1.
        pose proof (merge_into_string_keys _ _ _ _ _ Hs1 H2) as Hs2.
        exact (merge_into_string_keys _ _ _ _ _ Hs2 Hstep).
      * exact (setitem_string_keys _ _ _ _ Hstr Hstep).
    + destruct (if mem k config then Some config
                else setitem refuses k (Dict []) config) as [c1|] eqn:H1;
        [|discriminate].
      cbn [bind] in Hstep.
      assert (Hs1 : forall id', mem (KOther id') c1 = false).
      { destruct (mem k config).
        - injection H1 as <-. exact Hstr.
        - exact (setitem_string_keys _ _ _ _ Hstr H1). }
      exact (merge_into_string_keys _ _ _ _ _ Hs1 Hstep).
Qed.

End ConfigFacts.

(** X19.  A YAML file of mappings and scalars (no sequences) without
    includes, whose keys are all strings that [EasyDict] takes as attribute
    names, is read back as it is: [cfg_from_yaml_file] returns the dict the
    file holds, item for item and in the file's order, at every level of
    nesting. *)
Theorem cfg_from_yaml_file_plain (fuel : nat)
    (refuses : string -> Config.value -> bool)
    (files : string -> option Config.value) (cfg_file : string)
    (items : list (Config.key * Config.value)) :
  files cfg_file = Some (Config.Dict items) ->
  Config.plain refuses (Config.Dict items) ->
  Config.depth (Config.Dict items) <= fuel ->
  Config.cfg_from_yaml_file fuel refuses files cfg_file
  = Some (Config.Dict items).
Proof.
  intros Hfile Hp Hd. unfold Config.cfg_from_yaml_file. rewrite Hfile.
  cbn [bind].
  rewrite (merge_fresh refuses files fuel [] items Hd Hp); [reflexivity|].
  intros k _ [].
Qed.

(** X20.  An item [_base_: path] is not inherited from.  When it is the
    first item of [new_config], [_base_] is accepted as an attribute name
    and the file at [path] holds a mapping of the kind of X19 (string keys,
    scalars and nested mappings, no include of its own), the merge goes on
    with the other items from the config in which the content of the file
    sits as a dict under the key [_base_] (in the place of an item [_base_]
    already there, at the end otherwise) and whose other items are as they
    were; the second merge of the file, which the missing [continue]
    causes, changes nothing. *)
Theorem merge_new_config_base (fuel : nat)
    (refuses : string -> Config.value -> bool)
    (files : string -> option Config.value) (path : string)
    (config base rest : list (Config.key * Config.value)) :
  files path = Some (Config.Dict base) ->
  Config.plain refuses (Config.Dict base) ->
  Config.depth (Config.Dict base) <= fuel ->
  refuses "_base_"%string (Config.Dict []) = false ->
  Config.merge_new_config (S fuel) refuses files (Config.Dict config)
    ((Config.KStr "_base_", Config.Scalar path) :: rest)
  = Config.merge_new_config (S fuel) refuses files
      (Config.Dict
         (Config.set (Config.KStr "_base_") (Config.Dict base) config))
      rest
  /\ (Config.mem (Config.KStr "_base_") config = false ->
      Config.set (Config.KStr "_base_") (Config.Dict base) config
      = config ++ [(Config.KStr "_base_", Config.Dict base)]).
Proof.
  intros Hfile Hp Hd Hok. split; [|apply set_absent].
  cbn [Config.merge_new_config].
  rewrite key_eqb_refl, Hfile. cbn [bind].
  rewrite (setitem_accepted refuses _ _ _ Hok). cbn [bind].
  rewrite get_set. cbn [bind].
  rewrite (merge_fresh refuses files fuel [] base Hd Hp) by (intros k _ []).
  cbn [bind app]. rewrite set_set, get_set. cbn [bind].
  rewrite (merge_same refuses files fuel base base Hd Hp).
  - cbn [bind]. rewrite set_set. reflexivity.
  - intros k v Hin. apply get_in; [|exact Hin]. destruct Hp as [Hnd _]. exact Hnd.
Qed.


(** X22.  A key that is not a string cannot be stored into the config:
    when an item of [new_config], at the top level, has such a key (as the
    int keys of a mapping from class numbers to names), and the config, as
    an [EasyDict] does, has string keys only, [merge_new_config] raises,
    whatever the value under the key and the other items are; so does
    [cfg_from_yaml_file] on a file that holds such an item. *)
Theorem merge_new_config_key_not_a_string (fuel : nat)
    (refuses : string -> Config.value -> bool)
    (files : string -> option Config.value) (id cfg_file : string)
    (val : Config.value)
    (config new_config : list (Config.key * Config.value)) :
  (forall id', Config.mem (Config.KOther id') config = false) ->
  In (Config.KOther id, val) new_config ->
  Config.merge_new_config fuel refuses files (Config.Dict config) new_config
  = None
  /\ (files cfg_file = Some (Config.Dict new_config) ->
      Config.cfg_from_yaml_file fuel refuses files cfg_file = None).
Proof.
  intros Hstr Hin. split.
  - exact (merge_key_not_a_string refuses files fuel id val new_config config
             Hstr Hin).
  - intros Hfile. unfold Config.cfg_from_yaml_file. rewrite Hfile. cbn [bind].
    apply (merge_key_not_a_string refuses files fuel id val); [|exact Hin].
    reflexivity.
Qed.

Lemma yaml_items_plain :
  Config.plain Samples.setattr_refuses (Config.Dict Samples.yaml_items).
Proof.
  simpl. repeat split; try discriminate.
  - repeat constructor; simpl; intros H;
      repeat (destruct H as [H|H]; [discriminate H|]); exact H.
  - repeat constructor. intros [].
Qed.

Lemma cfg_from_yaml_file_plain_witness :
  Samples.yaml_files "ModelNet40.yaml" = Some (Config.Dict Samples.yaml_items)
  /\ Config.plain Samples.setattr_refuses (Config.Dict Samples.yaml_items)
  /\ Config.depth (Config.Dict Samples.yaml_items) <= 2
  /\ Config.cfg_from_yaml_file 2 Samples.setattr_refuses Samples.yaml_files
       "ModelNet40.yaml"
     = Some (Config.Dict Samples.yaml_items).
Proof.
  assert (Hf : Samples.yaml_files "ModelNet40.yaml"
               = Some (Config.Dict Samples.yaml_items)) by reflexivity.
  assert (Hd : Config.depth (Config.Dict Samples.yaml_items) <= 2)
    by (simpl; lia).
  split; [exact Hf|]. split; [exact yaml_items_plain|]. split; [exact Hd|].
  exact (cfg_from_yaml_file_plain 2 Samples.setattr_refuses Samples.yaml_files
           "ModelNet40.yaml" Samples.yaml_items Hf yaml_items_plain Hd).
Defined.

Lemma merge_new_config_base_witness :
  Samples.yaml_files "ModelNet40.yaml" = Some (Config.Dict Samples.yaml_items)
  /\ Config.plain Samples.setattr_refuses (Config.Dict Samples.yaml_items)
  /\ Config.depth (Config.Dict Samples.yaml_items) <= 2
  /\ Samples.setattr_refuses "_base_" (Config.Dict []) = false
  /\ Config.merge_new_config 3 Samples.setattr_refuses Samples.yaml_files
       (Config.Dict [(Config.KStr "npoints", Config.Scalar "1024")])
       [(Config.KStr "_base_", Config.Scalar "ModelNet40.yaml");
        (Config.KStr "npoints", Config.Scalar "8192")]
     = Some (Config.Dict
               [(Config.KStr "npoints", Config.Scalar "8192");
                (Config.KStr "_base_", Config.Dict Samples.yaml_items)]).
Proof.
  assert (Hf : Samples.yaml_files "ModelNet40.yaml"
               = Some (Config.Dict Samples.yaml_items)) by reflexivity.
  assert (Hd : Config.depth (Config.Dict Samples.yaml_items) <= 2)
    by (simpl; lia).
  assert (Hm : Samples.setattr_refuses "_base_" (Config.Dict []) = false)
    by reflexivity.
  split; [exact Hf|]. split; [exact yaml_items_plain|]. split; [exact Hd|].
  split; [exact Hm|].
  destruct (merge_new_config_base 2 Samples.setattr_refuses Samples.yaml_files
              "ModelNet40.yaml"
              [(Config.KStr "npoints", Config.Scalar "1024")]
              Samples.yaml_items
              [(Config.KStr "npoints", Config.Scalar "8192")]
              Hf yaml_items_plain Hd Hm) as [E _].
  rewrite E. reflexivity.
Defined.


Lemma yaml_items_string_keys :
  forall id, Config.mem (Config.KOther id) Samples.yaml_items = false.
Proof. intros id. reflexivity. Qed.

Lemma merge_new_config_key_not_a_string_witness :
  (forall id, Config.mem (Config.KOther id) Samples.yaml_items = false)
  /\ In (Config.KOther "1", Config.Scalar "bathtub") Samples.yaml_classes
  /\ Config.merge_new_config 5 Samples.setattr_refuses Samples.classes_files
       (Config.Dict Samples.yaml_items) Samples.yaml_classes = None
  /\ (Samples.classes_files "classes.yaml"
      = Some (Config.Dict Samples.yaml_classes) ->
      Config.cfg_from_yaml_file 5 Samples.setattr_refuses
        Samples.classes_files "classes.yaml" = None).
Proof.
  assert (Hin : In (Config.KOther "1", Config.Scalar "bathtub")
                   Samples.yaml_classes)
    by (right; left; reflexivity).
  split; [exact yaml_items_string_keys|]. split; [exact Hin|].
  exact (merge_new_config_key_not_a_string 5 Samples.setattr_refuses
           Samples.classes_files "1" "classes.yaml" (Config.Scalar "bathtub")
           Samples.yaml_items Samples.yaml_classes
           yaml_items_string_keys Hin).
Defined.
